(** * LogLens: log-level classification and incremental tailing

    A shallow embedding of [src/extension.ts] (the LogLens VS Code
    extension) together with the properties of its two cores:

    - the rule table [logLevels] with the two consumers of it,
      [applyHighlights] (one decoration batch per level) and
      [updateStatusBar] (the three status-bar counters);
    - the tail command [tailFile], its [fs.watch] listener and the
      teardown in [deactivate].

    JavaScript strings are sequences of UTF-16 code units; they are
    modelled as [list N].  Regular expressions are modelled by a small
    abstract syntax and a backtracking matcher that follows the order in
    which the ECMAScript matcher tries alternatives. *)

From Stdlib Require Import NArith Ascii String List Bool Arith Lia Sorted.
From stdpp Require Import base tactics option list relations.

Set Default Proof Using "Type".
Local Open Scope nat_scope.

(** ** JavaScript strings *)

Abbreviation jsstring := (list N).

(** [str "abc"] is the JavaScript string with the same (ASCII) text. *)
Definition str (s : string) : jsstring :=
  map N_of_ascii (list_ascii_of_string s).

Definition jsstring_eqb (a b : jsstring) : bool :=
  bool_decide (a = b).

(** ** Regular expressions *)

Module RegExp.

(** The fragment of pattern syntax used by the extension. *)
Inductive node : Type :=
| Empty                          (* the empty pattern *)
| Char (c : N)                   (* a literal character *)
| Class (cs : list N)            (* [...] : one character of a set *)
| WordBoundary                   (* \b *)
| Seq (a b : node)               (* ab *)
| Alt (a b : node)               (* a|b *)
| Opt (a : node)                 (* a? (greedy) *)
| Group (a : node).              (* (a) *)

(** A [RegExp] object: the pattern, the [g] and [i] flags, and the
    mutable [lastIndex] cursor. *)
Record t : Type := mk {
  source : node;
  global : bool;
  ignoreCase : bool;
  lastIndex : nat
}.

Definition set_lastIndex (i : nat) (R : t) : t :=
  {| source := source R; global := global R;
     ignoreCase := ignoreCase R; lastIndex := i |}.

(** [\w] without the [u] flag: [A-Za-z0-9_]. *)
Definition isWordChar (c : N) : bool :=
  ((97 <=? c) && (c <=? 122) || (65 <=? c) && (c <=? 90)
   || (48 <=? c) && (c <=? 57) || (c =? 95))%N.

(** [Canonicalize] without the [u] flag maps a code unit to its upper
    case, except that a non-ASCII code unit is never mapped to an ASCII
    one.  On ASCII this is the map below; a non-ASCII code unit stays
    non-ASCII, so leaving it in place gives the same comparisons
    against the ASCII characters of the patterns of this program. *)
Definition Canonicalize (ic : bool) (ch : N) : N :=
  if ic then (if (97 <=? ch) && (ch <=? 122) then ch - 32 else ch)%N
  else ch.

Definition charEq (ic : bool) (x c : N) : bool :=
  (Canonicalize ic x =? Canonicalize ic c)%N.

(** [\b] holds between [prev] and the head of [rest] when exactly one
    of them is a word character. *)
Definition isWordBoundary (prev : option N) (rest : jsstring) : bool :=
  xorb (match prev with Some c => isWordChar c | None => false end)
       (match rest with c :: _ => isWordChar c | [] => false end).

(** The matcher, in continuation-passing style: [prev] is the
    character before the current position, [s] the remaining input,
    [e] the current index and [k] what is left to match.  The result
    is the end index of the first match found by backtracking. *)
Fixpoint matchNode (ic : bool) (r : node) (prev : option N)
    (s : jsstring) (e : nat)
    (k : option N -> jsstring -> nat -> option nat) : option nat :=
  match r with
  | Empty => k prev s e
  | Char c =>
      match s with
      | x :: s' => if charEq ic x c then k (Some x) s' (S e) else None
      | [] => None
      end
  | Class cs =>
      match s with
      | x :: s' =>
          if existsb (charEq ic x) cs then k (Some x) s' (S e) else None
      | [] => None
      end
  | WordBoundary => if isWordBoundary prev s then k prev s e else None
  | Seq a b =>
      matchNode ic a prev s e (fun p s' e' => matchNode ic b p s' e' k)
  | Alt a b =>
      match matchNode ic a prev s e k with
      | Some m => Some m
      | None => matchNode ic b prev s e k
      end
  | Opt a =>
      match matchNode ic a prev s e k with
      | Some m => Some m
      | None => k prev s e
      end
  | Group a => matchNode ic a prev s e k
  end.

Definition matchAt (ic : bool) (r : node) (prev : option N)
    (s : jsstring) (i : nat) : option nat :=
  matchNode ic r prev s i (fun _ _ e => Some e).

(** Try every start position from index [i] on, leftmost first. *)
Fixpoint search (ic : bool) (r : node) (prev : option N)
    (s : jsstring) (i : nat) : option nat :=
  match matchAt ic r prev s i with
  | Some e => Some e
  | None =>
      match s with
      | [] => None
      | c :: s' => search ic r (Some c) s' (S i)
      end
  end.

Definition charBefore (input : jsstring) (i : nat) : option N :=
  match i with 0 => None | S j => input !! j end.

(** [RegExpBuiltinExec], keeping the end index of the match: a global
    pattern starts at its [lastIndex], any other at 0. *)
Definition exec (R : t) (input : jsstring) : option nat :=
  let i := if global R then lastIndex R else 0 in
  if length input <? i then None
  else search (ignoreCase R) (source R) (charBefore input i)
         (drop i input) i.

(** [R.test(input)]: the answer, and the object with its cursor moved
    when the pattern is global. *)
Definition test (R : t) (input : jsstring) : bool * t :=
  match exec R input with
  | Some e => (true, if global R then set_lastIndex e R else R)
  | None => (false, if global R then set_lastIndex 0 R else R)
  end.

(** A literal run of characters. *)
Fixpoint chars (l : jsstring) : node :=
  match l with
  | [] => Empty
  | c :: l' => Seq (Char c) (chars l')
  end.

Definition lit (s : string) : node := chars (str s).

(** Does the pattern match somewhere in the line, searching from the
    start? *)
Definition matches (ic : bool) (r : node) (input : jsstring) : bool :=
  bool_decide (is_Some (search ic r None input 0)).

End RegExp.

Import RegExp.

(** ** The rule table: [logLevels] *)

(** A level of the table.  The [decorationType] field of the source is a
    rendering handle of the editor and carries no matching logic; the
    level's [name] identifies its decoration batch here. *)
Record LogLevel : Type := {
  name : string;
  patterns : list RegExp.t
}.

(** A pattern literal written with the flags [gi]. *)
Definition re_gi (r : node) : RegExp.t :=
  {| source := r; global := true; ignoreCase := true; lastIndex := 0 |}.

(** A pattern literal written with the flag [i]. *)
Definition re_i (r : node) : RegExp.t :=
  {| source := r; global := false; ignoreCase := true; lastIndex := 0 |}.

Definition quote : N := 34%N.
Definition lbracket : N := 91%N.
Definition rbracket : N := 93%N.
Definition equals_or_colon : list N := [61%N; 58%N].

(** [\b( alternatives )\b] *)
Definition word (r : node) : node :=
  Seq WordBoundary (Seq (Group r) WordBoundary).

(** [\[ tag \]] *)
Definition bracketed (r : node) : node :=
  Seq (Char lbracket) (Seq r (Char rbracket)).

(** [level[=:]"? value "?] *)
Definition keyValue (r : node) : node :=
  Seq (lit "level")
    (Seq (Class equals_or_colon)
       (Seq (Opt (Char quote)) (Seq r (Opt (Char quote))))).

Definition errorWords : node :=
  Alt (lit "ERROR") (Alt (lit "FATAL") (Alt (lit "CRITICAL") (lit "SEVERE"))).
Definition warnWords : node := Alt (lit "WARN") (lit "WARNING").
Definition infoWords : node := lit "INFO".
Definition debugWords : node :=
  Alt (lit "DEBUG") (Alt (lit "TRACE") (lit "VERBOSE")).

(** The four entries of the table, highest severity first. *)
Definition errorLevel : LogLevel :=
  {| name := "ERROR";
     patterns := [ re_gi (word errorWords);
                   re_gi (bracketed (lit "ERROR"));
                   re_gi (keyValue (lit "error")) ] |}.

Definition warnLevel : LogLevel :=
  {| name := "WARN";
     patterns := [ re_gi (word warnWords);
                   re_gi (bracketed
                            (Seq (lit "WARN") (Opt (Group (lit "ING")))));
                   re_gi (keyValue
                            (Seq (lit "warn") (Opt (Group (lit "ing"))))) ] |}.

Definition infoLevel : LogLevel :=
  {| name := "INFO";
     patterns := [ re_gi (word infoWords);
                   re_gi (bracketed (lit "INFO"));
                   re_gi (keyValue (lit "info")) ] |}.

Definition debugLevel : LogLevel :=
  {| name := "DEBUG";
     patterns := [ re_gi (word debugWords);
                   re_gi (bracketed (lit "DEBUG"));
                   re_gi (keyValue (lit "debug")) ] |}.

(** The value [initializeLogLevels] assigns to [logLevels]. *)
Definition initializeLogLevels : list LogLevel :=
  [ errorLevel; warnLevel; infoLevel; debugLevel ].

(** ** Documents *)

(** A [vscode.TextDocument]: [lineCount] is [length (lines d)] and
    [lineAt(i).text] is the [i]-th element.  [fileName] is also the
    document's [uri.fsPath]. *)
Record TextDocument : Type := {
  fileName : jsstring;
  languageId : jsstring;
  lines : list jsstring
}.

(** The lines of a text: a line ends at a line feed, at a carriage
    return, or at a carriage return followed by a line feed; the text
    after the last terminator is a line of its own, possibly empty. *)
Fixpoint splitLines (cur : jsstring) (text : jsstring) : list jsstring :=
  match text with
  | [] => [rev cur]
  | c :: rest =>
      if (c =? 10)%N then rev cur :: splitLines [] rest
      else if (c =? 13)%N then
        match rest with
        | c' :: rest' =>
            if (c' =? 10)%N then rev cur :: splitLines [] rest'
            else rev cur :: splitLines [] rest
        | [] => rev cur :: splitLines [] rest
        end
      else splitLines (c :: cur) rest
  end.

(** ** [applyHighlights] *)

(** The innermost loop of [applyHighlights] (and of [filterByLevel]):
    each pattern has its [lastIndex] reset and is tested; the first one
    that matches ends the loop.  The patterns are shared objects, so the
    loop also returns them as [test] left them. *)
Fixpoint testPatterns (ps : list RegExp.t) (lineText : jsstring)
    : bool * list RegExp.t :=
  match ps with
  | [] => (false, [])
  | pattern :: rest =>
      let '(hit, pattern') := test (set_lastIndex 0 pattern) lineText in
      if hit then (true, pattern' :: rest)
      else
        let '(hit', rest') := testPatterns rest lineText in
        (hit', pattern' :: rest')
  end.

(** The loop over the lines for one level: [decorations] collects the
    range of every line that one of the level's patterns matches; a
    whole-line range is represented by its line number. *)
Fixpoint decorateLines (ps : list RegExp.t) (lineNum : nat)
    (ls : list jsstring) (decorations : list nat)
    : list nat * list RegExp.t :=
  match ls with
  | [] => (decorations, ps)
  | lineText :: rest =>
      let '(hit, ps') := testPatterns ps lineText in
      decorateLines ps' (S lineNum) rest
        (if hit then decorations ++ [lineNum] else decorations)
  end.

(** The outer loop: one [setDecorations] call per level, in table order.
    The result lists these calls and the table with its patterns as the
    tests left them. *)
Fixpoint applyHighlights (levels : list LogLevel) (document : TextDocument)
    : list (string * list nat) * list LogLevel :=
  match levels with
  | [] => ([], [])
  | level :: rest =>
      let '(decorations, ps') :=
        decorateLines (patterns level) 0 (lines document) [] in
      let '(calls, rest') := applyHighlights rest document in
      ((name level, decorations) :: calls,
       {| name := name level; patterns := ps' |} :: rest')
  end.

(** ** [updateStatusBar] *)

(** The three counters of [updateStatusBar]; the status bar's [text] and
    [tooltip] are rendered from them. *)
Record Counts : Type := {
  errorCount : nat;
  warnCount : nat;
  infoCount : nat
}.

(** The pattern literals of the counting chain. *)
Definition countError : RegExp.t :=
  re_i (word (Alt (lit "ERROR") (Alt (lit "FATAL") (lit "CRITICAL")))).
Definition countWarn : RegExp.t := re_i (word warnWords).
Definition countInfo : RegExp.t :=
  re_i (Seq WordBoundary (Seq (lit "INFO") WordBoundary)).

(** One iteration of the loop: the [if / else if / else if] chain. *)
Definition countLine (line : jsstring) (c : Counts) : Counts :=
  if fst (test countError line) then
    {| errorCount := S (errorCount c); warnCount := warnCount c;
       infoCount := infoCount c |}
  else if fst (test countWarn line) then
    {| errorCount := errorCount c; warnCount := S (warnCount c);
       infoCount := infoCount c |}
  else if fst (test countInfo line) then
    {| errorCount := errorCount c; warnCount := warnCount c;
       infoCount := S (infoCount c) |}
  else c.

Definition zeroCounts : Counts :=
  {| errorCount := 0; warnCount := 0; infoCount := 0 |}.

Definition updateStatusBar (document : TextDocument) : Counts :=
  fold_left (fun c line => countLine line c) (lines document) zeroCounts.

(** ** Classification as the specification words it *)

(** A level matches a line when one of its patterns does. *)
Definition levelMatches (level : LogLevel) (line : jsstring) : bool :=
  existsb (fun p => matches (ignoreCase p) (source p) line) (patterns level).

(** The match set of a line: the names of all levels that match it. *)
Definition spec_matchSet (line : jsstring) : list string :=
  map name
    (List.filter (fun level => levelMatches level line) initializeLogLevels).

(** The primary level of a line: the first level of the table, in
    priority order, that matches it. *)
Definition spec_primaryLevel (line : jsstring) : option string :=
  head (spec_matchSet line).

(** A document given by its text. *)
Definition logDocument (text : string) : TextDocument :=
  {| fileName := str "/var/log/app.log"; languageId := str "log";
     lines := splitLines [] (str text) |}.

Definition LF : string := String (ascii_of_nat 10) EmptyString.

(** ** JavaScript [Map] with string keys *)

(** A [Map] iterates in insertion order, so it is modelled by an
    association list with at most one entry per key. *)
Module JsMap.

Definition t (V : Type) : Type := list (jsstring * V).

Fixpoint get {V} (m : t V) (key : jsstring) : option V :=
  match m with
  | [] => None
  | (k, v) :: m' => if jsstring_eqb k key then Some v else get m' key
  end.

Definition has {V} (m : t V) (key : jsstring) : bool :=
  match get m key with Some _ => true | None => false end.

(** [set] overwrites the value of a present key in place and appends a
    new key at the end. *)
Fixpoint set {V} (m : t V) (key : jsstring) (value : V) : t V :=
  match m with
  | [] => [(key, value)]
  | (k, v) :: m' =>
      if jsstring_eqb k key then (k, value) :: m'
      else (k, v) :: set m' key value
  end.

Fixpoint delete {V} (m : t V) (key : jsstring) : t V :=
  match m with
  | [] => []
  | (k, v) :: m' =>
      if jsstring_eqb k key then m' else (k, v) :: delete m' key
  end.

Definition clear {V} (m : t V) : t V := [].

Definition keys {V} (m : t V) : list jsstring := map fst m.

End JsMap.

(** ** The world the tail command runs in *)

(** A file: its bytes, and whether this process may open it for
    reading. *)
Record File : Type := {
  data : list Byte.byte;
  readable : bool
}.

Definition FileSystem : Type := jsstring -> option File.

(** The exceptions the modelled calls raise. *)
Inductive Error : Type :=
| ENOENT          (* no such file *)
| EACCES          (* permission denied *)
| CloseFailed.    (* a watcher's close() raised *)

(** The [fs] calls made, in order (a record kept beside the state). *)
Inductive FsCall : Type :=
| StatSync (path : jsstring)
| OpenSync (path : jsstring)
| ReadSync (offset length position : nat)
| CloseSync
| Watch (path : jsstring)
| WatcherClose (watcher : nat).

(** The texts written on the output channel. *)
Inductive Text : Type :=
| Utf8 (buffer : list Byte.byte)   (* buffer.toString('utf-8') *)
| TailingBanner (filePath : jsstring)
| TruncatedNotice.

(** The calls on the output channel since it was last cleared. *)
Inductive OutputOp : Type :=
| Append (value : Text)
| AppendLine (value : Text)
| Reveal.                      (* outputChannel.show() *)

(** The notifications shown to the user. *)
Inductive Message : Type :=
| WarnOpenLogFileFirst
| InfoStoppedTailing (filePath : jsstring)
| InfoTailing (filePath : jsstring).

(** An [fs.FSWatcher] together with the variables its listener closes
    over: the watched [filePath] and the offset [lastSize]. *)
Record FSWatcher : Type := {
  filePath : jsstring;
  lastSize : nat;
  closed : bool
}.

(** The state: the module's globals ([tailWatchers], [outputChannel]),
    the watcher objects created so far (a watcher is named by its index
    in [fsWatchers]), and the environment the calls observe.  A command
    or a listener runs to its end without yielding, on synchronous
    [fs] calls; [fileSystem] is the disk as that run finds it, and
    [closeRaises] tells for which watchers [close()] raises. *)
Record World : Type := {
  activeTextEditor : option TextDocument;
  fileSystem : FileSystem;
  closeRaises : nat -> bool;
  tailWatchers : JsMap.t nat;
  fsWatchers : list FSWatcher;
  outputChannel : list OutputOp;
  messages : list Message;
  fsCalls : list FsCall
}.

Definition with_tailWatchers (m : JsMap.t nat) (w : World) : World :=
  {| activeTextEditor := activeTextEditor w; fileSystem := fileSystem w;
     closeRaises := closeRaises w; tailWatchers := m;
     fsWatchers := fsWatchers w; outputChannel := outputChannel w;
     messages := messages w; fsCalls := fsCalls w |}.

Definition with_fsWatchers (l : list FSWatcher) (w : World) : World :=
  {| activeTextEditor := activeTextEditor w; fileSystem := fileSystem w;
     closeRaises := closeRaises w; tailWatchers := tailWatchers w;
     fsWatchers := l; outputChannel := outputChannel w;
     messages := messages w; fsCalls := fsCalls w |}.

Definition with_outputChannel (l : list OutputOp) (w : World) : World :=
  {| activeTextEditor := activeTextEditor w; fileSystem := fileSystem w;
     closeRaises := closeRaises w; tailWatchers := tailWatchers w;
     fsWatchers := fsWatchers w; outputChannel := l;
     messages := messages w; fsCalls := fsCalls w |}.

Definition with_messages (l : list Message) (w : World) : World :=
  {| activeTextEditor := activeTextEditor w; fileSystem := fileSystem w;
     closeRaises := closeRaises w; tailWatchers := tailWatchers w;
     fsWatchers := fsWatchers w; outputChannel := outputChannel w;
     messages := l; fsCalls := fsCalls w |}.

Definition with_fsCalls (l : list FsCall) (w : World) : World :=
  {| activeTextEditor := activeTextEditor w; fileSystem := fileSystem w;
     closeRaises := closeRaises w; tailWatchers := tailWatchers w;
     fsWatchers := fsWatchers w; outputChannel := outputChannel w;
     messages := messages w; fsCalls := l |}.

(** ** A state-and-exception monad for the effectful code *)

Definition M (A : Type) : Type := World -> (Error + A) * World.

Definition ret {A} (a : A) : M A := fun w => (inr a, w).

Definition throw {A} (e : Error) : M A := fun w => (inl e, w).

Definition bind {A B} (c : M A) (k : A -> M B) : M B :=
  fun w =>
    match c w with
    | (inl e, w') => (inl e, w')
    | (inr a, w') => k a w'
    end.

Notation "'let!' x ':=' c 'in' k" := (bind c (fun x => k))
  (at level 10, x name, c at level 100, k at level 200).

Definition gets {A} (f : World -> A) : M A := fun w => (inr (f w), w).

Definition modify (f : World -> World) : M unit := fun w => (inr tt, f w).

Definition logCall (c : FsCall) : M unit :=
  modify (fun w => with_fsCalls (fsCalls w ++ [c]) w).

(** ** The calls into [fs], [vscode.window] and the output channel *)

(** [fs.statSync(path).size]; raises when the file does not exist. *)
Definition statSync (path : jsstring) : M nat :=
  let! _ := logCall (StatSync path) in
  let! fs := gets fileSystem in
  match fs path with
  | Some f => ret (length (data f))
  | None => throw ENOENT
  end.

(** [fs.openSync(path, 'r')]: the descriptor gives access to the file's
    bytes. *)
Definition openSync (path : jsstring) : M (list Byte.byte) :=
  let! _ := logCall (OpenSync path) in
  let! fs := gets fileSystem in
  match fs path with
  | Some f => if readable f then ret (data f) else throw EACCES
  | None => throw ENOENT
  end.

(** [Buffer.alloc(size)]: [size] zero bytes. *)
Definition Buffer_alloc (size : nat) : list Byte.byte :=
  replicate size Byte.x00.

(** [fs.readSync(fd, buffer, offset, length, position)] copies at most
    [length] bytes of the file, from [position] on, into [buffer] at
    [offset]; the rest of the buffer keeps its content.  The result is
    the buffer after the call. *)
Definition readSync (fd buffer : list Byte.byte)
    (offset len position : nat) : M (list Byte.byte) :=
  let! _ := logCall (ReadSync offset len position) in
  let bytes := take len (drop position fd) in
  ret (take offset buffer ++ bytes ++ drop (offset + length bytes) buffer).

Definition closeSync : M unit := logCall CloseSync.

(** [fs.watch(path, listener)]: a new open watcher whose listener holds
    [lastSize]. *)
Definition watch (path : jsstring) (size : nat) : M nat :=
  let! _ := logCall (Watch path) in
  let! fs := gets fileSystem in
  match fs path with
  | None => throw ENOENT
  | Some _ =>
      let! ws := gets fsWatchers in
      let! _ := modify (with_fsWatchers
                    (ws ++ [{| filePath := path; lastSize := size;
                               closed := false |}])) in
      ret (length ws)
  end.

Definition mark_closed (fw : FSWatcher) : FSWatcher :=
  {| filePath := filePath fw; lastSize := lastSize fw; closed := true |}.

(** [watcher.close()]. *)
Definition watcherClose (watcher : nat) : M unit :=
  let! _ := logCall (WatcherClose watcher) in
  let! raises := gets closeRaises in
  if raises watcher then throw CloseFailed
  else modify (fun w =>
         with_fsWatchers (alter mark_closed watcher (fsWatchers w)) w).

Definition assigned (size : nat) (fw : FSWatcher) : FSWatcher :=
  {| filePath := filePath fw; lastSize := size; closed := closed fw |}.

(** The assignment [lastSize = size] inside the listener of [watcher]. *)
Definition assignLastSize (watcher size : nat) : M unit :=
  modify (fun w =>
    with_fsWatchers (alter (assigned size) watcher (fsWatchers w)) w).

Definition output (op : OutputOp) : M unit :=
  modify (fun w => with_outputChannel (outputChannel w ++ [op]) w).

Definition showMessage (m : Message) : M unit :=
  modify (fun w => with_messages (messages w ++ [m]) w).

(** ** [isLogFile] *)

(** [toLowerCase], on the ASCII letters.  A code unit outside ASCII
    never becomes one of the characters of [.log] or [.logs], so the
    answers of the two [endsWith] tests below are not affected. *)
Definition toLowerCase (s : jsstring) : jsstring :=
  map (fun c => if (65 <=? c) && (c <=? 90) then c + 32 else c)%N s.

Definition endsWith (s suffix : jsstring) : bool :=
  (length suffix <=? length s)
  && jsstring_eqb (drop (length s - length suffix) s) suffix.

Definition isLogFile (document : TextDocument) : bool :=
  let fileName := toLowerCase (fileName document) in
  endsWith fileName (str ".log")
  || endsWith fileName (str ".logs")
  || jsstring_eqb (languageId document) (str "log").

(** ** The tail command *)

Inductive EventType : Type := change | rename.

(** The listener given to [fs.watch], for the watcher [watcher]. *)
Definition listener (watcher : nat) (eventType : EventType) : M unit :=
  match eventType with
  | change =>
      let! ws := gets fsWatchers in
      match ws !! watcher with
      | None => ret tt
      | Some fw =>
          let! size := statSync (filePath fw) in
          if lastSize fw <? size then
            let! fd := openSync (filePath fw) in
            let buffer := Buffer_alloc (size - lastSize fw) in
            let! buffer := readSync fd buffer 0 (length buffer) (lastSize fw) in
            let! _ := closeSync in
            let newContent := Utf8 buffer in
            let! _ := output (Append newContent) in
            assignLastSize watcher size
          else if size <? lastSize fw then
            let! _ := assignLastSize watcher size in
            output (AppendLine TruncatedNotice)
          else ret tt
      end
  | rename => ret tt
  end.

Definition tailFile : M unit :=
  let! editor := gets activeTextEditor in
  match editor with
  | None => showMessage WarnOpenLogFileFirst
  | Some document =>
      if negb (isLogFile document) then showMessage WarnOpenLogFileFirst
      else
        let filePath := fileName document in
        let! registry := gets tailWatchers in
        if JsMap.has registry filePath then
          let! _ := match JsMap.get registry filePath with
              | Some watcher => watcherClose watcher
              | None => ret tt
              end in
          let! _ := modify (fun w =>
                with_tailWatchers (JsMap.delete (tailWatchers w) filePath) w) in
          showMessage (InfoStoppedTailing filePath)
        else
          let! lastSize := statSync filePath in
          let! watcher := watch filePath lastSize in
          let! _ := modify (fun w =>
                with_tailWatchers
                  (JsMap.set (tailWatchers w) filePath watcher) w) in
          let! _ := modify (with_outputChannel []) in
          let! _ := output (AppendLine (TailingBanner filePath)) in
          let! _ := output Reveal in
          showMessage (InfoTailing filePath)
  end.

(** ** Teardown *)

(** [tailWatchers.forEach((watcher) => watcher.close())]. *)
Fixpoint forEachClose (entries : JsMap.t nat) : M unit :=
  match entries with
  | [] => ret tt
  | (_, watcher) :: rest => let! _ := watcherClose watcher in forEachClose rest
  end.

Definition clearTailWatchers : M unit :=
  modify (fun w => with_tailWatchers (JsMap.clear (tailWatchers w)) w).

(** The [dispose] callback registered by [activate]. *)
Definition dispose : M unit :=
  let! registry := gets tailWatchers in
  let! _ := forEachClose registry in
  clearTailWatchers.

(** [deactivate]; disposing the decoration types of [logLevels] touches
    nothing of this state. *)
Definition deactivate : M unit :=
  let! registry := gets tailWatchers in
  let! _ := forEachClose registry in
  let! _ := clearTailWatchers in
  ret tt.

(** ** Runs of the extension *)

(** One step of a run.  Everything else the extension or its
    environment does (editing files, switching editors, the other
    commands, highlighting, the status bar) leaves [tailWatchers] and the
    watcher objects alone, which is all [step_other] says about it.  An
    exception that escapes a command or a listener is reported by the
    host; the state stays as the code left it. *)
Inductive step : World -> World -> Prop :=
| step_tailFile w :
    step w (snd (tailFile w))
| step_listener w watcher fw eventType :
    fsWatchers w !! watcher = Some fw ->
    closed fw = false ->
    step w (snd (listener watcher eventType w))
| step_dispose w :
    step w (snd (dispose w))
| step_deactivate w :
    step w (snd (deactivate w))
| step_other w w' :
    tailWatchers w' = tailWatchers w ->
    fsWatchers w' = fsWatchers w ->
    step w w'.

(** The state after [activate]: nothing is tailed and no watcher exists. *)
Definition initial (w : World) : Prop :=
  tailWatchers w = [] /\ fsWatchers w = [].

Definition reachable (w : World) : Prop :=
  exists w0, initial w0 /\ rtc step w0 w.

(** ** The vocabulary of the specification *)

(** The two delta events of a tail session. *)
Inductive TailEvent : Type :=
| Appended (payload : list Byte.byte)
| Truncated.

(** How an event shows on the output channel: appended bytes are
    written decoded, a truncation as a fixed notice. *)
Definition spec_event (op : OutputOp) : option TailEvent :=
  match op with
  | Append (Utf8 buffer) => Some (Appended buffer)
  | AppendLine TruncatedNotice => Some Truncated
  | _ => None
  end.

Definition spec_events (w : World) : list TailEvent :=
  omap spec_event (outputChannel w).

(** An active session on [path]: the registry maps [path] to an open
    watcher of that path, whose offset is [offset]. *)
Definition spec_activeSession (w : World) (path : jsstring)
    (watcher offset : nat) : Prop :=
  JsMap.get (tailWatchers w) path = Some watcher
  /\ fsWatchers w !! watcher
     = Some {| filePath := path; lastSize := offset; closed := false |}.

(** [path] is inactive: no session is registered for it. *)
Definition spec_inactive (w : World) (path : jsstring) : Prop :=
  JsMap.has (tailWatchers w) path = false.

(** The open watchers of [path]: the sessions of that path that are
    still running, registered or not. *)
Definition openWatchersOf (w : World) (path : jsstring) : list nat :=
  List.filter
         (fun i =>
            match fsWatchers w !! i with
            | Some fw => negb (closed fw) && jsstring_eqb (filePath fw) path
            | None => false
            end)
         (seq 0 (length (fsWatchers w))).

(** The registry is well formed: it has one entry per path at most, and
    every watcher that is still open is the one registered for its
    path. *)
Definition registry_ok (m : JsMap.t nat) (ws : list FSWatcher) : Prop :=
  NoDup (JsMap.keys m)
  /\ forall i fw,
       ws !! i = Some fw -> closed fw = false ->
       JsMap.get m (filePath fw) = Some i.

Definition world_ok (w : World) : Prop :=
  registry_ok (tailWatchers w) (fsWatchers w).

(** The watcher objects after the watchers [ids] have been closed. *)
Definition closeAll (ids : list nat) (ws : list FSWatcher)
    : list FSWatcher :=
  foldl (fun ws i => alter mark_closed i ws) ws ids.

(** ** Concrete states used in the examples *)

Definition appLog : jsstring := str "/var/log/app.log".
Definition dbLog : jsstring := str "/var/log/db.log".

Definition appLogDocument : TextDocument :=
  {| fileName := appLog; languageId := str "log"; lines := [] |}.

Definition fileOf (bytes : list Byte.byte) : File :=
  {| data := bytes; readable := true |}.

(** A file system holding [app.log] (when given) and [db.log]. *)
Definition diskWith (app : option File) : FileSystem :=
  fun path =>
    if jsstring_eqb path appLog then app
    else if jsstring_eqb path dbLog then Some (fileOf [Byte.x64; Byte.x62])
    else None.

Definition hello : list Byte.byte :=
  [Byte.x68; Byte.x65; Byte.x6c; Byte.x6c; Byte.x6f].

(** Just after [activate], with [app.log] (five bytes) in the editor. *)
Definition freshWorld : World :=
  {| activeTextEditor := Some appLogDocument;
     fileSystem := diskWith (Some (fileOf hello));
     closeRaises := fun _ => false;
     tailWatchers := []; fsWatchers := [];
     outputChannel := []; messages := []; fsCalls := [] |}.

(** Two sessions: watcher 0 on [app.log] at offset 5, watcher 1 on
    [db.log] at offset 2. *)
Definition tailingWorld (disk : FileSystem) (raises : nat -> bool) : World :=
  {| activeTextEditor := Some appLogDocument;
     fileSystem := disk;
     closeRaises := raises;
     tailWatchers := [(appLog, 0); (dbLog, 1)];
     fsWatchers := [ {| filePath := appLog; lastSize := 5; closed := false |};
                     {| filePath := dbLog; lastSize := 2; closed := false |} ];
     outputChannel := []; messages := []; fsCalls := [] |}.

(** The line numbers, counted from [lineNum], of the lines that [f]
    accepts: the annotation batch of a level whose matcher is [f]. *)
Fixpoint spec_lineRanges (f : jsstring -> bool) (lineNum : nat)
    (ls : list jsstring) : list nat :=
  match ls with
  | [] => []
  | l :: rest =>
      (if f l then [lineNum] else []) ++ spec_lineRanges f (S lineNum) rest
  end.

(** The level whose counter [countLine] increments for a line, if any. *)
Definition countedLevel (line : jsstring) : option string :=
  if fst (test countError line) then Some "ERROR"%string
  else if fst (test countWarn line) then Some "WARN"%string
  else if fst (test countInfo line) then Some "INFO"%string
  else None.

(** The counter of a level in the result of [updateStatusBar]; there is
    none for a level other than the three it counts. *)
Definition counterOf (c : Counts) (level : string) : option nat :=
  if String.eqb level "ERROR" then Some (errorCount c)
  else if String.eqb level "WARN" then Some (warnCount c)
  else if String.eqb level "INFO" then Some (infoCount c)
  else None.

Definition oneLine (line : string) : TextDocument :=
  {| fileName := appLog; languageId := str "log"; lines := [str line] |}.

(** The document of the end-to-end example. *)
Definition endToEndDocument : TextDocument :=
  logDocument ("2024 ERROR db down" ++ LF ++ "2024 INFO ok" ++ LF).

(** ** [filterByLevel] *)

(** A line of the filtered view: the line as it is (for [All Levels])
    or prefixed with its one-based number, [`[${i + 1}] ${line}`]. *)
Inductive FilteredLine : Type :=
| Plain (line : jsstring)
| Numbered (n : nat) (line : jsstring).

(** [logLevels.find(l => l.name === level)?.patterns || []] followed by
    the pattern loop: the first level of that name has its patterns
    tested (and their cursors moved); with no such level there is
    nothing to test. *)
Fixpoint testLevel (levels : list LogLevel) (level : string)
    (line : jsstring) : bool * list LogLevel :=
  match levels with
  | [] => (false, [])
  | l :: rest =>
      if String.eqb (name l) level then
        let '(hit, ps') := testPatterns (patterns l) line in
        (hit, {| name := name l; patterns := ps' |} :: rest)
      else
        let '(hit, rest') := testLevel rest level line in
        (hit, l :: rest')
  end.

(** The loop of [filterByLevel] over the lines, from line [i] on. *)
Fixpoint filterLines (levels : list LogLevel) (level : string) (i : nat)
    (ls : list jsstring) (filteredLines : list FilteredLine)
    : list FilteredLine * list LogLevel :=
  match ls with
  | [] => (filteredLines, levels)
  | line :: rest =>
      if String.eqb level "All Levels" then
        filterLines levels level (S i) rest (filteredLines ++ [Plain line])
      else
        let '(hit, levels') := testLevel levels level line in
        filterLines levels' level (S i) rest
          (if hit then filteredLines ++ [Numbered (i + 1) line]
           else filteredLines)
  end.

(** What the command ends with: the warning, nothing (the pick was
    dismissed), or the output channel cleared and filled with the
    header [=== Filtered: level (count lines) ===] and the lines. *)
Inductive FilterResult : Type :=
| FilterWarned
| FilterDismissed
| FilterShown (level : string) (count : nat)
    (filteredLines : list FilteredLine).

(** [filterByLevel], given the table, the active editor's document and
    the answer of the quick pick. *)
Definition filterByLevel (levels : list LogLevel)
    (editor : option TextDocument) (picked : option string)
    : FilterResult * list LogLevel :=
  match editor with
  | None => (FilterWarned, levels)
  | Some document =>
      if negb (isLogFile document) then (FilterWarned, levels)
      else
        match picked with
        | None => (FilterDismissed, levels)
        | Some level =>
            if String.eqb level "" then (FilterDismissed, levels)
            else
              let '(filteredLines, levels') :=
                filterLines levels level 0 (lines document) [] in
              (FilterShown level (length filteredLines) filteredLines,
               levels')
        end
  end.

(** [Array.prototype.find] by name. *)
Fixpoint findLevel (levels : list LogLevel) (level : string)
    : option LogLevel :=
  match levels with
  | [] => None
  | l :: rest =>
      if String.eqb (name l) level then Some l else findLevel rest level
  end.

(** Does the level of that name, if there is one, match the line? *)
Definition levelTest (levels : list LogLevel) (level : string)
    (line : jsstring) : bool :=
  match findLevel levels level with
  | Some l => levelMatches l line
  | None => false
  end.

(** Is the line counted, and at that level? *)
Definition countedAs (level : string) (line : jsstring) : bool :=
  match countedLevel line with
  | Some l => String.eqb l level
  | None => false
  end.

Definition lineNumber (fl : FilteredLine) : option nat :=
  match fl with Plain _ => None | Numbered n _ => Some n end.

Definition lineText (fl : FilteredLine) : jsstring :=
  match fl with Plain l => l | Numbered _ l => l end.

(** ** Letter case and whole words *)

(** Two strings that differ at most in the case of ASCII letters. *)
Definition sameUpToCase (a b : jsstring) : Prop :=
  Forall2 (fun x y => Canonicalize true x = Canonicalize true y) a b.

(** The same for the character before a position, if there is one. *)
Definition sameChar (p p' : option N) : Prop :=
  match p, p' with
  | Some x, Some y => Canonicalize true x = Canonicalize true y
  | None, None => True
  | _, _ => False
  end.

Definition notWordChar (c : option N) : Prop :=
  match c with Some x => isWordChar x = false | None => True end.

(** [line] has the keyword [kw], in any letter case, as a whole word:
    the characters around the occurrence, if any, are not word
    characters. *)
Definition hasWord (kw : string) (line : jsstring) : Prop :=
  exists pre tok post,
    line = pre ++ tok ++ post
    /\ sameUpToCase tok (str kw)
    /\ notWordChar (last pre)
    /\ notWordChar (head post).

Definition isLetter (c : N) : bool :=
  ((65 <=? c) && (c <=? 90) || (97 <=? c) && (c <=? 122))%N.

(** A string without ASCII letters. *)
Definition noLetters (s : jsstring) : Prop :=
  Forall (fun c => isLetter c = false) s.

(** A sufficient condition for a pattern to need a letter: on every way
    through it there is a literal letter, or a class of letters. *)
Fixpoint needsLetter (r : node) : bool :=
  match r with
  | Char c => isLetter c
  | Class cs => forallb isLetter cs
  | Seq a b => needsLetter a || needsLetter b
  | Alt a b => needsLetter a && needsLetter b
  | Group a => needsLetter a
  | Empty | WordBoundary | Opt _ => false
  end.

(** [alt] is one of the alternatives of [r]. *)
Fixpoint hasAlternative (r alt : node) : Prop :=
  match r with
  | Alt a b => hasAlternative a alt \/ hasAlternative b alt
  | _ => r = alt
  end.

(** The character before the position that follows [pre], when the
    character before [pre] is [prev]. *)
Definition lastOr (prev : option N) (pre : jsstring) : option N :=
  match last pre with Some c => Some c | None => prev end.

(** ** Files that grow *)

Definition with_fileSystem (fs : FileSystem) (w : World) : World :=
  {| activeTextEditor := activeTextEditor w; fileSystem := fs;
     closeRaises := closeRaises w; tailWatchers := tailWatchers w;
     fsWatchers := fsWatchers w; outputChannel := outputChannel w;
     messages := messages w; fsCalls := fsCalls w |}.




(** Every registered watcher exists and watches the path it is
    registered for. *)
Definition registered_ok (m : JsMap.t nat) (ws : list FSWatcher) : Prop :=
  forall path i,
    JsMap.get m path = Some i ->
    exists fw, ws !! i = Some fw /\ filePath fw = path.


Definition world_registered (w : World) : Prop :=
  registered_ok (tailWatchers w) (fsWatchers w).

(** ** More concrete states *)

Definition with_activeTextEditor (editor : option TextDocument)
    (w : World) : World :=
  {| activeTextEditor := editor; fileSystem := fileSystem w;
     closeRaises := closeRaises w; tailWatchers := tailWatchers w;
     fsWatchers := fsWatchers w; outputChannel := outputChannel w;
     messages := messages w; fsCalls := fsCalls w |}.

Definition dbLogDocument : TextDocument :=
  {| fileName := dbLog; languageId := str "log"; lines := [] |}.

(** [db.log] is being tailed and the user has moved to [app.log]. *)
Definition dbTailedWorld : World :=
  with_activeTextEditor (Some appLogDocument)
    (snd (tailFile (with_activeTextEditor (Some dbLogDocument) freshWorld))).

(** A document that was never saved: it has the language [log] and no
    file on disk. *)
Definition untitledDocument : TextDocument :=
  {| fileName := str "Untitled-1"; languageId := str "log"; lines := [] |}.

(** * Properties *)

(** ** The matcher *)

Section Matcher.

Implicit Types (r a b c d : node) (line s : jsstring) (p : RegExp.t).

Lemma matches_true ic r line :
  matches ic r line = true <-> is_Some (search ic r None line 0).
Proof. unfold matches. apply bool_decide_eq_true. Qed.

(** A test from a reset cursor searches the whole line. *)
Lemma test_reset p line :
  fst (test (set_lastIndex 0 p) line)
  = matches (ignoreCase p) (source p) line.
Proof.
  unfold test, exec, matches; cbn.
  replace (if global p then 0 else 0) with 0 by (by destruct (global p)).
  cbn. by destruct (search _ _ _ _ _) as [e|].
Qed.

(** So does the test of a pattern literal without the [g] flag. *)
Lemma test_not_global p line :
  global p = false ->
  fst (test p line) = matches (ignoreCase p) (source p) line.
Proof.
  intros Hg. unfold test, exec, matches; rewrite Hg; cbn.
  by destruct (search _ _ _ _ _) as [e|].
Qed.

(** [search] is monotone in the pattern, position by position. *)
Lemma search_mono ic r1 r2 :
  (forall prev s i, is_Some (matchAt ic r1 prev s i) ->
                    is_Some (matchAt ic r2 prev s i)) ->
  forall s prev i, is_Some (search ic r1 prev s i) ->
                   is_Some (search ic r2 prev s i).
Proof.
  intros Hsub s. induction s as [|x s IH]; intros prev i; cbn.
  - destruct (matchAt ic r1 prev [] i) eqn:E1.
    + destruct (Hsub prev [] i) as [e He]; [rewrite E1; eauto|].
      rewrite He. eauto.
    + by intros [? ?].
  - destruct (matchAt ic r1 prev (x :: s) i) eqn:E1.
    + destruct (Hsub prev (x :: s) i) as [e He]; [rewrite E1; eauto|].
      rewrite He. eauto.
    + intros H. destruct (matchAt ic r2 prev (x :: s) i); eauto.
Qed.

Lemma matches_mono ic r1 r2 line :
  (forall prev s i, is_Some (matchAt ic r1 prev s i) ->
                    is_Some (matchAt ic r2 prev s i)) ->
  matches ic r1 line = true -> matches ic r2 line = true.
Proof.
  intros Hsub H. apply matches_true. apply matches_true in H.
  by apply (search_mono ic r1 r2 Hsub).
Qed.

(** Adding an alternative at the end of a whole-word alternation only
    adds matches. *)
Lemma word_more_alternatives ic a b c d prev s i :
  is_Some (matchAt ic (word (Alt a (Alt b c))) prev s i) ->
  is_Some (matchAt ic (word (Alt a (Alt b (Alt c d)))) prev s i).
Proof.
  unfold matchAt, word; cbn.
  destruct (isWordBoundary prev s); [|done].
  destruct (matchNode ic a _ _ _ _); [eauto|].
  destruct (matchNode ic b _ _ _ _); [eauto|].
  destruct (matchNode ic c _ _ _ _); [eauto|].
  by intros [? ?].
Qed.

(** Parentheses around the word do not change what matches. *)
Lemma word_without_group ic a prev s i :
  matchAt ic (Seq WordBoundary (Seq a WordBoundary)) prev s i
  = matchAt ic (word a) prev s i.
Proof. reflexivity. Qed.

End Matcher.

(** ** Classification: the table and its two consumers *)

Section Classification.

Implicit Types (line : jsstring) (ps : list RegExp.t) (level : LogLevel).

(** The pattern loop answers whether some pattern matches the line,
    whatever cursors the patterns were left with. *)
Lemma testPatterns_fst ps line :
  fst (testPatterns ps line)
  = existsb (fun p => matches (ignoreCase p) (source p) line) ps.
Proof.
  induction ps as [|p ps IH]; [done|]. cbn [testPatterns existsb].
  pose proof (test_reset p line) as Hp.
  destruct (test (set_lastIndex 0 p) line) as [hit p']. cbn in Hp. subst hit.
  destruct (matches _ _ line); [done|].
  destruct (testPatterns ps line) as [hit' ps']. cbn in *. done.
Qed.

Lemma test_keeps_pattern p line :
  source (snd (test p line)) = source p
  /\ ignoreCase (snd (test p line)) = ignoreCase p.
Proof.
  unfold test. destruct (exec p line), (global p); done.
Qed.

(** The loop only moves cursors: the patterns keep their source and
    flags, so a later line is matched by the same rules. *)
Lemma testPatterns_snd ps line line' :
  existsb (fun p => matches (ignoreCase p) (source p) line')
    (snd (testPatterns ps line))
  = existsb (fun p => matches (ignoreCase p) (source p) line') ps.
Proof.
  induction ps as [|p ps IH]; [done|]. cbn [testPatterns].
  destruct (test_keeps_pattern (set_lastIndex 0 p) line) as [Hs Hi].
  destruct (test (set_lastIndex 0 p) line) as [hit p']. cbn in Hs, Hi.
  destruct hit.
  - cbn. by rewrite Hs, Hi.
  - destruct (testPatterns ps line) as [hit' ps']. cbn in *.
    by rewrite Hs, Hi, IH.
Qed.

Lemma decorateLines_fst ps lineNum ls decorations :
  fst (decorateLines ps lineNum ls decorations)
  = decorations
    ++ spec_lineRanges
         (fun l => existsb (fun p => matches (ignoreCase p) (source p) l) ps)
         lineNum ls.
Proof.
  revert ps lineNum decorations.
  induction ls as [|l ls IH]; intros ps lineNum decorations.
  - cbn. by rewrite app_nil_r.
  - cbn [decorateLines spec_lineRanges].
    pose proof (testPatterns_fst ps l) as Hf.
    pose proof (fun l' => testPatterns_snd ps l l') as Hs.
    destruct (testPatterns ps l) as [hit ps']. cbn in Hf, Hs.
    rewrite IH, <- Hf.
    assert (spec_lineRanges
              (fun l0 => existsb
                 (fun p => matches (ignoreCase p) (source p) l0) ps')
              (S lineNum) ls
            = spec_lineRanges
              (fun l0 => existsb
                 (fun p => matches (ignoreCase p) (source p) l0) ps)
              (S lineNum) ls) as ->.
    { clear -Hs. generalize (S lineNum).
      induction ls as [|l1 ls IH1]; intros n; [done|].
      cbn. by rewrite Hs, IH1. }
    destruct hit; by rewrite <- ?app_assoc.
Qed.

(** [applyHighlights] hands out, for every level of the table, the
    lines that the level matches: each level is tested on its own. *)
Lemma applyHighlights_batches levels document :
  fst (applyHighlights levels document)
  = map (fun level =>
           (name level,
            spec_lineRanges (levelMatches level) 0 (lines document)))
        levels.
Proof.
  induction levels as [|level levels IH]; [done|].
  cbn [applyHighlights map].
  pose proof (decorateLines_fst (patterns level) 0 (lines document) [])
    as Hd.
  destruct (decorateLines _ _ _ _) as [decorations ps'].
  destruct (applyHighlights levels document) as [calls rest'].
  cbn in *. by rewrite Hd, IH.
Qed.

(** The match set, level by level. *)
Lemma spec_matchSet_unfold line :
  spec_matchSet line
  = (if levelMatches errorLevel line then ["ERROR"%string] else [])
    ++ (if levelMatches warnLevel line then ["WARN"%string] else [])
    ++ (if levelMatches infoLevel line then ["INFO"%string] else [])
    ++ (if levelMatches debugLevel line then ["DEBUG"%string] else []).
Proof.
  unfold spec_matchSet, initializeLogLevels. cbn [List.filter].
  destruct (levelMatches errorLevel line), (levelMatches warnLevel line),
    (levelMatches infoLevel line), (levelMatches debugLevel line);
    reflexivity.
Qed.

(** Each counting pattern is covered by the first pattern of the
    level it counts for. *)
Lemma countError_covered line :
  fst (test countError line) = true -> levelMatches errorLevel line = true.
Proof.
  rewrite test_not_global by done. intros H.
  unfold levelMatches, errorLevel. cbn [patterns existsb].
  apply orb_true_iff. left.
  revert H. apply matches_mono. intros prev s i.
  apply word_more_alternatives.
Qed.

Lemma countWarn_covered line :
  fst (test countWarn line) = true -> levelMatches warnLevel line = true.
Proof.
  rewrite test_not_global by done. intros H.
  unfold levelMatches, warnLevel. cbn [patterns existsb].
  apply orb_true_iff. by left.
Qed.

Lemma countInfo_covered line :
  fst (test countInfo line) = true -> levelMatches infoLevel line = true.
Proof.
  rewrite test_not_global by done. intros H.
  unfold levelMatches, infoLevel. cbn [patterns existsb].
  apply orb_true_iff. left.
  revert H. apply matches_mono. intros prev s i Hm.
  change (source countInfo)
    with (Seq WordBoundary (Seq infoWords WordBoundary)) in Hm.
  by rewrite word_without_group in Hm.
Qed.


(** A line that none of the levels ERROR, WARN and INFO matches is
    counted nowhere. *)
Lemma not_counted line :
  levelMatches errorLevel line = false ->
  levelMatches warnLevel line = false ->
  levelMatches infoLevel line = false ->
  countedLevel line = None.
Proof.
  intros He Hw Hi. unfold countedLevel.
  destruct (fst (test countError line)) eqn:Ce.
  { apply countError_covered in Ce. congruence. }
  destruct (fst (test countWarn line)) eqn:Cw.
  { apply countWarn_covered in Cw. congruence. }
  destruct (fst (test countInfo line)) eqn:Ci; [|done].
  apply countInfo_covered in Ci. congruence.
Qed.

(** [countLine] increments the counter of the counted level by one and
    leaves the others as they are. *)
Lemma countLine_countedLevel line c :
  countLine line c
  = match countedLevel line with
    | Some "ERROR"%string =>
        {| errorCount := S (errorCount c); warnCount := warnCount c;
           infoCount := infoCount c |}
    | Some "WARN"%string =>
        {| errorCount := errorCount c; warnCount := S (warnCount c);
           infoCount := infoCount c |}
    | Some _ =>
        {| errorCount := errorCount c; warnCount := warnCount c;
           infoCount := S (infoCount c) |}
    | None => c
    end.
Proof.
  unfold countLine, countedLevel.
  by destruct (fst (test countError line)), (fst (test countWarn line)),
    (fst (test countInfo line)).
Qed.

End Classification.

(** ** The bracket tag and the counting pattern *)

(** A match of [r1] starting at a character gives a match of [r2]
    starting right after it. *)
Lemma search_shift ic r1 r2 :
  (forall prev i, matchAt ic r1 prev [] i = None) ->
  (forall prev x s i, is_Some (matchAt ic r1 prev (x :: s) i) ->
                      is_Some (matchAt ic r2 (Some x) s (S i))) ->
  forall s prev i, is_Some (search ic r1 prev s i) ->
                   is_Some (search ic r2 prev s i).
Proof.
  intros Hnil Hshift s. induction s as [|x s IH]; intros prev i; cbn.
  - rewrite Hnil. by intros [? ?].
  - intros H.
    assert (is_Some (search ic r2 (Some x) s (S i))) as Hnext.
    { destruct (matchAt ic r1 prev (x :: s) i) eqn:E1.
      - assert (is_Some (matchAt ic r2 (Some x) s (S i))) as [e He]
          by (apply (Hshift prev); rewrite E1; eauto).
        destruct s; cbn; rewrite He; eauto.
      - by apply IH. }
    destruct (matchAt ic r2 prev (x :: s) i); eauto.
Qed.

(** Under [i], a character equal to an ASCII one is that character or
    the same letter in the other case. *)
Lemma charEq_cases x c :
  charEq true x c = true ->
  x = c \/ (x = (c + 32)%N /\ (65 <= c <= 90)%N)
  \/ (c = (x + 32)%N /\ (65 <= x <= 90)%N).
Proof.
  unfold charEq, Canonicalize.
  destruct (N.leb_spec 97 x), (N.leb_spec x 122), (N.leb_spec 97 c),
    (N.leb_spec c 122); cbn; intros Heq; apply N.eqb_eq in Heq; lia.
Qed.

Lemma bracketed_error_has_the_word prev x s i :
  is_Some (matchAt true (bracketed (lit "ERROR")) prev (x :: s) i) ->
  is_Some (matchAt true (source countError) (Some x) s (S i)).
Proof.
  assert (lit "ERROR"
          = Seq (Char 69) (Seq (Char 82) (Seq (Char 82)
              (Seq (Char 79) (Seq (Char 82) Empty))))) as HE by reflexivity.
  unfold matchAt, bracketed, countError, re_i, word, lbracket, rbracket.
  cbn [source]. rewrite HE. cbn -[charEq lit isWordBoundary].
  destruct (charEq true x 91) eqn:E0; [|by intros [? ?]].
  destruct s as [|c1 s]; [by intros [? ?]|].
  destruct (charEq true c1 69) eqn:E1; [|by intros [? ?]].
  destruct s as [|c2 s]; [by intros [? ?]|].
  destruct (charEq true c2 82) eqn:E2; [|by intros [? ?]].
  destruct s as [|c3 s]; [by intros [? ?]|].
  destruct (charEq true c3 82) eqn:E3; [|by intros [? ?]].
  destruct s as [|c4 s]; [by intros [? ?]|].
  destruct (charEq true c4 79) eqn:E4; [|by intros [? ?]].
  destruct s as [|c5 s]; [by intros [? ?]|].
  destruct (charEq true c5 82) eqn:E5; [|by intros [? ?]].
  destruct s as [|c6 s]; [by intros [? ?]|].
  destruct (charEq true c6 93) eqn:E6; [|by intros [? ?]].
  intros _.
  assert (isWordChar x = false) as Hx.
  { apply charEq_cases in E0. assert (x = 91%N) as -> by lia. done. }
  assert (isWordChar c1 = true) as H1.
  { apply charEq_cases in E1.
    assert (c1 = 69 \/ c1 = 101)%N as [-> | ->] by lia; done. }
  assert (isWordChar c5 = true) as H5.
  { apply charEq_cases in E5.
    assert (c5 = 82 \/ c5 = 114)%N as [-> | ->] by lia; done. }
  assert (isWordChar c6 = false) as H6.
  { apply charEq_cases in E6. assert (c6 = 93%N) as -> by lia. done. }
  unfold isWordBoundary. rewrite Hx, H1. cbn -[charEq lit].
  rewrite H5, H6. cbn -[lit]. eauto.
Qed.

(** A line with the bracket tag [[ERROR]] is counted as an error: the
    tag contains ERROR as a whole word. *)
Lemma bracketed_error_counted line :
  matches true (bracketed (lit "ERROR")) line = true ->
  fst (test countError line) = true.
Proof.
  rewrite test_not_global by done. intros H.
  apply matches_true. apply matches_true in H. revert H.
  apply search_shift.
  - intros prev i. reflexivity.
  - apply bracketed_error_has_the_word.
Qed.

(** ** Counting against the table *)

(** C1, evaluated on the code: the lines [SEVERE: disk failure] and
    [level=errors] have primary level ERROR under the table, through the
    whole-word token SEVERE and through the key-value form, and the
    counting pass of [updateStatusBar] increments no counter for them;
    for [SEVERE warning], also of primary level ERROR, it increments
    the WARN counter.  The bracket-tag line [[ERROR] boot] is counted as
    ERROR. *)
Theorem C1_severe_and_key_value_lines_miscounted :
  spec_primaryLevel (str "SEVERE: disk failure") = Some "ERROR"%string
  /\ updateStatusBar (oneLine "SEVERE: disk failure") = zeroCounts
  /\ spec_primaryLevel (str "level=errors") = Some "ERROR"%string
  /\ updateStatusBar (oneLine "level=errors") = zeroCounts
  /\ spec_primaryLevel (str "SEVERE warning") = Some "ERROR"%string
  /\ updateStatusBar (oneLine "SEVERE warning")
     = {| errorCount := 0; warnCount := 1; infoCount := 0 |}
  /\ spec_primaryLevel (str "[ERROR] boot") = Some "ERROR"%string
  /\ updateStatusBar (oneLine "[ERROR] boot")
     = {| errorCount := 1; warnCount := 0; infoCount := 0 |}.
Proof. vm_compute. repeat split; reflexivity. Qed.

(** C2, the claim fails: the line [DEBUG cache warm] has primary level
    DEBUG, the result of the counting pass has no counter for DEBUG, and
    none of its counters is incremented. *)
Lemma C2_debug_line_increments_nothing :
  spec_primaryLevel (str "DEBUG cache warm") = Some "DEBUG"%string
  /\ counterOf (updateStatusBar (oneLine "DEBUG cache warm")) "DEBUG" = None
  /\ updateStatusBar (oneLine "DEBUG cache warm") = zeroCounts.
Proof. vm_compute. repeat split; reflexivity. Qed.

(** A primary level below INFO means that ERROR, WARN and INFO do not
    match. *)
Lemma primary_below_info line :
  spec_primaryLevel line = Some "DEBUG"%string
  \/ spec_primaryLevel line = None ->
  levelMatches errorLevel line = false
  /\ levelMatches warnLevel line = false
  /\ levelMatches infoLevel line = false.
Proof.
  unfold spec_primaryLevel. rewrite spec_matchSet_unfold.
  destruct (levelMatches errorLevel line), (levelMatches warnLevel line),
    (levelMatches infoLevel line), (levelMatches debugLevel line);
    cbn; intros [H|H]; try discriminate H; done.
Qed.

(** C2, as amended: the counting pass keeps a counter for each of ERROR,
    WARN and INFO and none for DEBUG; a line whose primary level is
    DEBUG increments no counter; and for the document
    ["2024 ERROR db down\n2024 INFO ok\n"] the counts are ERROR 1,
    WARN 0, INFO 1. *)
Theorem C2_counts_error_warn_info :
  (forall level c,
      is_Some (counterOf c level)
      <-> level = "ERROR"%string \/ level = "WARN"%string
          \/ level = "INFO"%string)
  /\ (forall line c,
        spec_primaryLevel line = Some "DEBUG"%string ->
        countLine line c = c)
  /\ updateStatusBar endToEndDocument
     = {| errorCount := 1; warnCount := 0; infoCount := 1 |}.
Proof.
  split; [|split].
  - intros level c. unfold counterOf.
    destruct (String.eqb_spec level "ERROR"); [subst; split; eauto|].
    destruct (String.eqb_spec level "WARN"); [subst; split; eauto|].
    destruct (String.eqb_spec level "INFO"); [subst; split; eauto|].
    split; [by intros [? ?]|]. intros [?|[?|?]]; congruence.
  - intros line c Hp. rewrite countLine_countedLevel.
    destruct (primary_below_info line (or_introl Hp)) as (He & Hw & Hi).
    by rewrite (not_counted line He Hw Hi).
  - vm_compute. reflexivity.
Qed.

(** An instance: the line [DEBUG cache warm] leaves the counts at zero. *)
Lemma C2_counts_error_warn_info_witness :
  spec_primaryLevel (str "DEBUG cache warm") = Some "DEBUG"%string
  /\ countLine (str "DEBUG cache warm") zeroCounts = zeroCounts.
Proof.
  split; [vm_compute; reflexivity|].
  apply (proj1 (proj2 C2_counts_error_warn_info)).
  vm_compute; reflexivity.
Defined.




(** ** The [Map] operations *)

Section JsMapFacts.

Context {V : Type}.
Implicit Types (m : JsMap.t V) (k : jsstring) (v : V).

Lemma jsstring_eqb_eq a b : jsstring_eqb a b = true <-> a = b.
Proof. apply bool_decide_eq_true. Qed.

Lemma jsstring_eqb_neq a b : jsstring_eqb a b = false <-> a <> b.
Proof. apply bool_decide_eq_false. Qed.

Lemma jsstring_eqb_refl a : jsstring_eqb a a = true.
Proof. by apply jsstring_eqb_eq. Qed.

Lemma has_false_get m k : JsMap.has m k = false <-> JsMap.get m k = None.
Proof. unfold JsMap.has. destruct (JsMap.get m k); split; done. Qed.

Lemma has_true_get m k :
  JsMap.has m k = true <-> exists v, JsMap.get m k = Some v.
Proof.
  unfold JsMap.has. destruct (JsMap.get m k) as [v|].
  - split; eauto.
  - split; [done|]. by intros [? ?].
Qed.

Lemma get_elem_of m k v : JsMap.get m k = Some v -> (k, v) ∈ m.
Proof.
  induction m as [|[k' v'] m IH]; cbn; [done|].
  destruct (jsstring_eqb k' k) eqn:E.
  - apply jsstring_eqb_eq in E. intros [= ->]. subst. left.
  - intros H. right. by apply IH.
Qed.

Lemma get_None_keys m k : JsMap.get m k = None <-> k ∉ JsMap.keys m.
Proof.
  unfold JsMap.keys. induction m as [|[k' v'] m IH]; cbn.
  - split; [intros _; apply not_elem_of_nil|done].
  - rewrite not_elem_of_cons. destruct (jsstring_eqb k' k) eqn:E.
    + apply jsstring_eqb_eq in E. split; [done|]. intros [? _]. congruence.
    + apply jsstring_eqb_neq in E. rewrite IH. split; [|tauto].
      intros H. split; [congruence|done].
Qed.

Lemma get_set_eq m k v : JsMap.get (JsMap.set m k v) k = Some v.
Proof.
  induction m as [|[k' v'] m IH]; cbn.
  - by rewrite jsstring_eqb_refl.
  - destruct (jsstring_eqb k' k) eqn:E; cbn; by rewrite E.
Qed.

Lemma get_set_ne m k k' v :
  k <> k' -> JsMap.get (JsMap.set m k v) k' = JsMap.get m k'.
Proof.
  intros Hne. induction m as [|[k0 v0] m IH]; cbn.
  - by rewrite (proj2 (jsstring_eqb_neq _ _) Hne).
  - destruct (jsstring_eqb k0 k) eqn:E; cbn.
    + apply jsstring_eqb_eq in E. subst k0.
      by rewrite (proj2 (jsstring_eqb_neq _ _) Hne).
    + by rewrite IH.
Qed.

Lemma get_delete_ne m k k' :
  k <> k' -> JsMap.get (JsMap.delete m k) k' = JsMap.get m k'.
Proof.
  intros Hne. induction m as [|[k0 v0] m IH]; cbn; [done|].
  destruct (jsstring_eqb k0 k) eqn:E; cbn.
  - apply jsstring_eqb_eq in E. subst k0.
    by rewrite (proj2 (jsstring_eqb_neq _ _) Hne).
  - by rewrite IH.
Qed.

Lemma keys_set_fresh m k v :
  JsMap.get m k = None -> JsMap.keys (JsMap.set m k v) = JsMap.keys m ++ [k].
Proof.
  unfold JsMap.keys. induction m as [|[k0 v0] m IH]; cbn; [done|].
  destruct (jsstring_eqb k0 k); [done|]. intros H. cbn. by rewrite IH.
Qed.

Lemma keys_delete_sublist m k :
  sublist (JsMap.keys (JsMap.delete m k)) (JsMap.keys m).
Proof.
  unfold JsMap.keys. induction m as [|[k0 v0] m IH]; cbn; [done|].
  destruct (jsstring_eqb k0 k); cbn.
  - by apply sublist_cons.
  - by apply sublist_skip.
Qed.

Lemma get_delete_eq m k :
  NoDup (JsMap.keys m) -> JsMap.get (JsMap.delete m k) k = None.
Proof.
  unfold JsMap.keys. induction m as [|[k0 v0] m IH]; cbn; [done|].
  intros Hnd. apply NoDup_cons in Hnd as [Hk0 Hnd].
  destruct (jsstring_eqb k0 k) eqn:E; cbn.
  - apply jsstring_eqb_eq in E. subst k0. by apply get_None_keys.
  - rewrite E. by apply IH.
Qed.


End JsMapFacts.

(** ** The listener *)

(** Unfold the monadic plumbing and compute, leaving arithmetic and list
    operations folded. *)
Ltac run_code :=
  unfold listener, tailFile, dispose, deactivate, clearTailWatchers,
    watcherClose, watch, bind, gets, statSync, openSync, readSync,
    closeSync, output, showMessage, assignLastSize, logCall, modify, ret,
    throw;
  cbn -[Nat.ltb Nat.sub Nat.add take drop alter isLogFile JsMap.has
        JsMap.get JsMap.set JsMap.delete].

Section Listener.

Implicit Types (w : World) (fw : FSWatcher) (f : File).

(** A full read into a fresh buffer of the size of the delta returns
    the bytes of the file from [position] on. *)
Lemma read_delta (fd : list Byte.byte) position :
  position <= length fd ->
  let buffer := Buffer_alloc (length fd - position) in
  take 0 buffer ++ take (length buffer) (drop position fd)
    ++ drop (0 + length (take (length buffer) (drop position fd))) buffer
  = drop position fd.
Proof.
  intros Hle buffer. subst buffer. unfold Buffer_alloc.
  rewrite length_replicate. change (0 + ?n) with n.
  rewrite (take_ge (drop position fd)) by (rewrite length_drop; lia).
  rewrite (drop_ge (replicate _ _))
    by (rewrite length_replicate, length_drop; lia).
  by rewrite app_nil_r.
Qed.

(** The file has grown: one byte-range read of the new bytes, one
    [append] of them, and the offset moves to the new size. *)
Lemma listener_grown w watcher fw f :
  fsWatchers w !! watcher = Some fw ->
  fileSystem w (filePath fw) = Some f ->
  readable f = true ->
  lastSize fw < length (data f) ->
  listener watcher change w
  = (inr tt,
     {| activeTextEditor := activeTextEditor w;
        fileSystem := fileSystem w;
        closeRaises := closeRaises w;
        tailWatchers := tailWatchers w;
        fsWatchers :=
          alter (assigned (length (data f))) watcher (fsWatchers w);
        outputChannel :=
          outputChannel w ++ [Append (Utf8 (drop (lastSize fw) (data f)))];
        messages := messages w;
        fsCalls :=
          fsCalls w
          ++ [StatSync (filePath fw); OpenSync (filePath fw);
              ReadSync 0 (length (data f) - lastSize fw) (lastSize fw);
              CloseSync] |}).
Proof.
  intros Hw Hf Hr Hlt.
  run_code. rewrite Hw. run_code. rewrite Hf.
  apply Nat.ltb_lt in Hlt as Hlt'. rewrite Hlt'.
  run_code. rewrite Hf, Hr. run_code.
  rewrite read_delta by lia.
  unfold Buffer_alloc. rewrite length_replicate.
  rewrite <- !app_assoc. reflexivity.
Qed.

(** The file has shrunk: no read, the offset drops to the new size,
    one truncation notice. *)
Lemma listener_shrunk w watcher fw f :
  fsWatchers w !! watcher = Some fw ->
  fileSystem w (filePath fw) = Some f ->
  length (data f) < lastSize fw ->
  listener watcher change w
  = (inr tt,
     {| activeTextEditor := activeTextEditor w;
        fileSystem := fileSystem w;
        closeRaises := closeRaises w;
        tailWatchers := tailWatchers w;
        fsWatchers :=
          alter (assigned (length (data f))) watcher (fsWatchers w);
        outputChannel := outputChannel w ++ [AppendLine TruncatedNotice];
        messages := messages w;
        fsCalls := fsCalls w ++ [StatSync (filePath fw)] |}).
Proof.
  intros Hw Hf Hlt. run_code. rewrite Hw. run_code. rewrite Hf.
  apply Nat.ltb_lt in Hlt as Hlt'. rewrite Hlt'.
  assert ((lastSize fw <? length (data f)) = false) as ->
    by (apply Nat.ltb_ge; lia).
  reflexivity.
Qed.

(** Same size: nothing but the [stat]. *)
Lemma listener_same_size w watcher fw f :
  fsWatchers w !! watcher = Some fw ->
  fileSystem w (filePath fw) = Some f ->
  length (data f) = lastSize fw ->
  listener watcher change w
  = (inr tt, with_fsCalls (fsCalls w ++ [StatSync (filePath fw)]) w).
Proof.
  intros Hw Hf Heq. run_code. rewrite Hw. run_code. rewrite Hf.
  assert ((lastSize fw <? length (data f)) = false) as ->
    by (apply Nat.ltb_ge; lia).
  assert ((length (data f) <? lastSize fw) = false) as ->
    by (apply Nat.ltb_ge; lia).
  reflexivity.
Qed.

(** The file is gone: [statSync] raises and nothing else happens. *)
Lemma listener_missing w watcher fw :
  fsWatchers w !! watcher = Some fw ->
  fileSystem w (filePath fw) = None ->
  listener watcher change w
  = (inl ENOENT, with_fsCalls (fsCalls w ++ [StatSync (filePath fw)]) w).
Proof.
  intros Hw Hf. run_code. rewrite Hw. run_code. by rewrite Hf.
Qed.

(** The file has grown but cannot be opened: [openSync] raises before
    anything is written or assigned. *)
Lemma listener_unreadable w watcher fw f :
  fsWatchers w !! watcher = Some fw ->
  fileSystem w (filePath fw) = Some f ->
  readable f = false ->
  lastSize fw < length (data f) ->
  listener watcher change w
  = (inl EACCES,
     with_fsCalls
       (fsCalls w ++ [StatSync (filePath fw); OpenSync (filePath fw)]) w).
Proof.
  intros Hw Hf Hr Hlt. run_code. rewrite Hw. run_code. rewrite Hf.
  apply Nat.ltb_lt in Hlt as Hlt'. rewrite Hlt'.
  run_code. rewrite Hf, Hr. unfold with_fsCalls; cbn.
  by rewrite <- !app_assoc.
Qed.

(** Whatever happens, the listener leaves the registry alone and, of
    the watcher objects, changes at most the offset of its own. *)
Lemma listener_frame w watcher eventType :
  tailWatchers (snd (listener watcher eventType w)) = tailWatchers w
  /\ messages (snd (listener watcher eventType w)) = messages w
  /\ (fsWatchers (snd (listener watcher eventType w)) = fsWatchers w
      \/ exists size,
           fsWatchers (snd (listener watcher eventType w))
           = alter (assigned size) watcher (fsWatchers w)).
Proof.
  destruct eventType; [|by auto].
  destruct (fsWatchers w !! watcher) as [fw|] eqn:Hw.
  2:{ run_code. rewrite Hw. by auto. }
  destruct (fileSystem w (filePath fw)) as [f|] eqn:Hf.
  2:{ rewrite (listener_missing w watcher fw) by done. by auto. }
  destruct (lt_eq_lt_dec (lastSize fw) (length (data f))) as [[Hlt|Heq]|Hgt].
  - destruct (readable f) eqn:Hr.
    + rewrite (listener_grown w watcher fw f) by done. cbn. eauto.
    + rewrite (listener_unreadable w watcher fw f) by done. by auto.
  - rewrite (listener_same_size w watcher fw f) by done. by auto.
  - rewrite (listener_shrunk w watcher fw f) by done. cbn. eauto.
Qed.

End Listener.

(** ** Tail sessions *)

Section Sessions.

Implicit Types (w : World) (path : jsstring) (f : File).

Lemma session_watcher w path watcher o :
  spec_activeSession w path watcher o ->
  fsWatchers w !! watcher
  = Some {| filePath := path; lastSize := o; closed := false |}.
Proof. by intros [_ ?]. Qed.

(** Assigning the offset of a session's watcher keeps the session. *)
Lemma session_assigned w w' path watcher o size :
  spec_activeSession w path watcher o ->
  tailWatchers w' = tailWatchers w ->
  fsWatchers w' = alter (assigned size) watcher (fsWatchers w) ->
  spec_activeSession w' path watcher size.
Proof.
  intros [Hg Hw] Ht Hf. split; [by rewrite Ht|].
  by rewrite Hf, list_lookup_alter_eq, Hw.
Qed.


End Sessions.





(** ** The tail command *)

Section TailFile.

Implicit Types (w : World) (document : TextDocument) (f : File).

(** Started: the offset is the size of the file at that moment. *)
Lemma tailFile_start w document f :
  activeTextEditor w = Some document ->
  isLogFile document = true ->
  JsMap.has (tailWatchers w) (fileName document) = false ->
  fileSystem w (fileName document) = Some f ->
  tailFile w
  = (inr tt,
     {| activeTextEditor := activeTextEditor w;
        fileSystem := fileSystem w;
        closeRaises := closeRaises w;
        tailWatchers :=
          JsMap.set (tailWatchers w) (fileName document)
            (length (fsWatchers w));
        fsWatchers :=
          fsWatchers w
          ++ [{| filePath := fileName document;
                 lastSize := length (data f); closed := false |}];
        outputChannel :=
          [AppendLine (TailingBanner (fileName document)); Reveal];
        messages := messages w ++ [InfoTailing (fileName document)];
        fsCalls :=
          fsCalls w ++ [StatSync (fileName document);
                        Watch (fileName document)] |}).
Proof.
  intros He Hl Hh Hf. run_code. rewrite He, Hl. run_code. rewrite Hh.
  run_code. rewrite Hf. run_code. rewrite Hf. run_code.
  unfold with_messages, with_outputChannel, with_tailWatchers,
    with_fsWatchers, with_fsCalls; cbn -[JsMap.set].
  by rewrite <- !app_assoc, He.
Qed.

(** Nothing to start from: the file does not exist. *)
Lemma tailFile_start_missing w document :
  activeTextEditor w = Some document ->
  isLogFile document = true ->
  JsMap.has (tailWatchers w) (fileName document) = false ->
  fileSystem w (fileName document) = None ->
  tailFile w
  = (inl ENOENT,
     with_fsCalls (fsCalls w ++ [StatSync (fileName document)]) w).
Proof.
  intros He Hl Hh Hf. run_code. rewrite He, Hl. run_code. rewrite Hh.
  run_code. by rewrite Hf.
Qed.

(** Stopped: the watcher is closed and its entry deleted. *)
Lemma tailFile_stop w document watcher :
  activeTextEditor w = Some document ->
  isLogFile document = true ->
  JsMap.get (tailWatchers w) (fileName document) = Some watcher ->
  closeRaises w watcher = false ->
  tailFile w
  = (inr tt,
     {| activeTextEditor := activeTextEditor w;
        fileSystem := fileSystem w;
        closeRaises := closeRaises w;
        tailWatchers := JsMap.delete (tailWatchers w) (fileName document);
        fsWatchers := alter mark_closed watcher (fsWatchers w);
        outputChannel := outputChannel w;
        messages := messages w ++ [InfoStoppedTailing (fileName document)];
        fsCalls := fsCalls w ++ [WatcherClose watcher] |}).
Proof.
  intros He Hl Hg Hc. run_code. rewrite He, Hl. run_code.
  unfold JsMap.has. rewrite Hg. run_code. rewrite Hc. run_code.
  unfold with_messages, with_tailWatchers, with_fsWatchers, with_fsCalls;
    cbn -[JsMap.delete alter].
  by rewrite He.
Qed.

Lemma tailFile_stop_raises w document watcher :
  activeTextEditor w = Some document ->
  isLogFile document = true ->
  JsMap.get (tailWatchers w) (fileName document) = Some watcher ->
  closeRaises w watcher = true ->
  tailFile w
  = (inl CloseFailed, with_fsCalls (fsCalls w ++ [WatcherClose watcher]) w).
Proof.
  intros He Hl Hg Hc. run_code. rewrite He, Hl. run_code.
  unfold JsMap.has. rewrite Hg. run_code. by rewrite Hc.
Qed.

(** Without a log file in the active editor the command only warns. *)
Lemma tailFile_refused w :
  match activeTextEditor w with
  | Some document => isLogFile document = false
  | None => True
  end ->
  tailFile w
  = (inr tt, with_messages (messages w ++ [WarnOpenLogFileFirst]) w).
Proof.
  intros H. run_code. destruct (activeTextEditor w); run_code; [|done].
  by rewrite H.
Qed.

End TailFile.

Section StartedSession.

Implicit Types (w : World) (document : TextDocument) (f : File).

(** The state [tailFile_start] ends in has an active session on the
    file, at the size the file had. *)
Lemma started_session w document f w1 :
  JsMap.has (tailWatchers w) (fileName document) = false ->
  tailWatchers w1
  = JsMap.set (tailWatchers w) (fileName document) (length (fsWatchers w)) ->
  fsWatchers w1
  = fsWatchers w
    ++ [{| filePath := fileName document; lastSize := length (data f);
           closed := false |}] ->
  spec_activeSession w1 (fileName document) (length (fsWatchers w))
    (length (data f)).
Proof.
  intros Hh Ht Hw. split.
  - rewrite Ht. apply get_set_eq.
  - rewrite Hw. by apply list_lookup_middle.
Qed.

End StartedSession.

(** C9: for an active session, a change notification that finds the
    file at the size of the tracked offset emits no event, neither
    Appended nor Truncated: the output channel, the watchers with their
    offsets, the registry and the messages are unchanged, and the only
    [fs] call is the [stat].  In particular, when tailing is started on
    an inactive path and a change notification follows at once, with
    the file as it was, no delta event is emitted. *)
Theorem C9_same_size_is_silent :
  (forall w path watcher o f,
      spec_activeSession w path watcher o ->
      fileSystem w path = Some f ->
      length (data f) = o ->
      exists w',
        listener watcher change w = (inr tt, w')
        /\ outputChannel w' = outputChannel w
        /\ spec_events w' = spec_events w
        /\ fsWatchers w' = fsWatchers w
        /\ tailWatchers w' = tailWatchers w
        /\ messages w' = messages w
        /\ fsCalls w' = fsCalls w ++ [StatSync path]
        /\ spec_activeSession w' path watcher o)
  /\ (forall w document f,
        activeTextEditor w = Some document ->
        isLogFile document = true ->
        spec_inactive w (fileName document) ->
        fileSystem w (fileName document) = Some f ->
        exists w1 watcher w2,
          tailFile w = (inr tt, w1)
          /\ spec_activeSession w1 (fileName document) watcher
               (length (data f))
          /\ listener watcher change w1 = (inr tt, w2)
          /\ spec_events w2 = []
          /\ spec_activeSession w2 (fileName document) watcher
               (length (data f))).
Proof.
  split.
  - intros w path watcher o f Hs Hf Hlen.
    pose proof (session_watcher _ _ _ _ Hs) as Hw.
    eexists. split; [exact (listener_same_size w watcher _ f Hw Hf Hlen)|].
    repeat split; try done; apply Hs.
  - intros w document f He Hl Hi Hf.
    pose proof (tailFile_start w document f He Hl Hi Hf) as Hrun.
    match type of Hrun with _ = (_, ?W) => set (w1 := W) in * end.
    assert (spec_activeSession w1 (fileName document) (length (fsWatchers w))
              (length (data f))) as Hs1
      by (by eapply started_session).
    pose proof (session_watcher _ _ _ _ Hs1) as Hw1.
    exists w1, (length (fsWatchers w)). eexists.
    split; [exact Hrun|]. split; [exact Hs1|].
    split; [exact (listener_same_size w1 _ _ f Hw1 Hf eq_refl)|].
    split; [done|]. destruct Hs1 as [Hg1 Hl1]. by split.
Qed.

(** Two instances: a notification at the tracked size, and one right after
    the start. *)
Lemma C9_same_size_is_silent_witness :
  (exists w',
      listener 0 change
        (tailingWorld (diskWith (Some (fileOf hello))) (fun _ => false))
      = (inr tt, w')
      /\ spec_events w' = [])
  /\ (exists w1 watcher w2,
        tailFile freshWorld = (inr tt, w1)
        /\ listener watcher change w1 = (inr tt, w2)
        /\ spec_events w2 = []).
Proof.
  split.
  - destruct (proj1 C9_same_size_is_silent
                (tailingWorld (diskWith (Some (fileOf hello)))
                   (fun _ => false))
                appLog 0 5 (fileOf hello))
      as (w' & Hrun & _ & Hev & _);
      [split; reflexivity | reflexivity | reflexivity |].
    exists w'. split; [exact Hrun|exact Hev].
  - destruct (proj2 C9_same_size_is_silent freshWorld appLogDocument
                (fileOf hello))
      as (w1 & watcher & w2 & Hrun & _ & Hl & Hev & _);
      [reflexivity | reflexivity | reflexivity | reflexivity |].
    exists w1, watcher, w2. split; [exact Hrun|]. split; [exact Hl|exact Hev].
Defined.

(** C3, the claim fails: with sessions on [app.log] and [db.log] and
    [app.log] deleted, the listener of the first raises ENOENT, and
    afterwards that session is still registered, its watcher still open
    at offset 5, and no message has been shown. *)
Lemma C3_session_survives_a_failed_read :
  let w' :=
    snd (listener 0 change (tailingWorld (diskWith None) (fun _ => false))) in
  fst (listener 0 change (tailingWorld (diskWith None) (fun _ => false)))
  = inl ENOENT
  /\ spec_activeSession w' appLog 0 5
  /\ ~ spec_inactive w' appLog
  /\ openWatchersOf w' appLog = [0]
  /\ messages w' = [].
Proof.
  cbn zeta. split; [reflexivity|]. split; [split; reflexivity|].
  split; [|split; reflexivity].
  unfold spec_inactive. vm_compute. discriminate.
Qed.

(** C3, as amended: for an active session, when the file is gone at
    the time the listener runs, [statSync] raises ENOENT, and when the
    file has grown but cannot be opened for reading, [openSync] raises
    EACCES; the listener does not handle the exception, which escapes
    to the host.  The session is not stopped: it stays registered with
    its watcher open and its offset unchanged; no event is emitted and
    no message is shown; every other session is unaffected. *)
Theorem C3_failed_read_escapes_and_changes_nothing w path watcher o :
  spec_activeSession w path watcher o ->
  (fileSystem w path = None
   \/ exists f, fileSystem w path = Some f /\ readable f = false
                /\ o < length (data f)) ->
  exists e w',
    listener watcher change w = (inl e, w')
    /\ (e = ENOENT \/ e = EACCES)
    /\ spec_activeSession w' path watcher o
    /\ tailWatchers w' = tailWatchers w
    /\ fsWatchers w' = fsWatchers w
    /\ outputChannel w' = outputChannel w
    /\ messages w' = messages w.
Proof.
  intros Hs Hfail. pose proof (session_watcher _ _ _ _ Hs) as Hw.
  destruct Hfail as [Hf|(f & Hf & Hr & Hlt)].
  - exists ENOENT. eexists.
    split; [exact (listener_missing w watcher _ Hw Hf)|].
    split; [by left|]. repeat split; try done; apply Hs.
  - exists EACCES. eexists.
    split; [exact (listener_unreadable w watcher _ f Hw Hf Hr Hlt)|].
    split; [by right|]. repeat split; try done; apply Hs.
Qed.

(** An instance: [app.log] has been deleted. *)
Lemma C3_failed_read_escapes_and_changes_nothing_witness :
  exists e w',
    listener 0 change (tailingWorld (diskWith None) (fun _ => false))
    = (inl e, w')
    /\ spec_activeSession w' appLog 0 5.
Proof.
  destruct (C3_failed_read_escapes_and_changes_nothing
              (tailingWorld (diskWith None) (fun _ => false)) appLog 0 5)
    as (e & w' & Hrun & _ & Hs & _).
  - split; reflexivity.
  - left. reflexivity.
  - exists e, w'. split; [exact Hrun|exact Hs].
Defined.



(** ** The registry invariant *)

Section Registry.

Implicit Types (m : JsMap.t nat) (ws : list FSWatcher) (w : World).

Lemma ok_alter m ws i (g : FSWatcher -> FSWatcher) :
  (forall fw, filePath (g fw) = filePath fw) ->
  (forall fw, closed (g fw) = false -> closed fw = false) ->
  registry_ok m ws -> registry_ok m (alter g i ws).
Proof.
  intros Hp Hc [Hnd Hopen]. split; [done|]. intros j fw Hj Hcl.
  destruct (decide (i = j)) as [->|Hne].
  - rewrite list_lookup_alter_eq in Hj.
    destruct (ws !! j) as [fw0|] eqn:E; [|done]. cbn in Hj.
    injection Hj as <-. rewrite Hp. apply Hopen; [done|]. by apply Hc.
  - rewrite list_lookup_alter_ne in Hj by done. by apply Hopen.
Qed.

Lemma ok_assigned m ws i size :
  registry_ok m ws -> registry_ok m (alter (assigned size) i ws).
Proof. by apply ok_alter. Qed.

Lemma ok_closed m ws i :
  registry_ok m ws -> registry_ok m (alter mark_closed i ws).
Proof. by apply ok_alter. Qed.

Lemma ok_closeAll m ws ids :
  registry_ok m ws -> registry_ok m (closeAll ids ws).
Proof.
  revert ws. induction ids as [|i ids IH]; intros ws H; [done|].
  change (closeAll (i :: ids) ws) with (closeAll ids (alter mark_closed i ws)).
  apply IH. by apply ok_closed.
Qed.

(** Stopping: the watcher of the path is closed, its entry deleted. *)
Lemma ok_stop m ws path i :
  registry_ok m ws -> JsMap.get m path = Some i ->
  registry_ok (JsMap.delete m path) (alter mark_closed i ws).
Proof.
  intros [Hnd Hopen] Hg. split.
  - eapply sublist_NoDup; [done|apply keys_delete_sublist].
  - intros j fw Hj Hcl. destruct (decide (i = j)) as [->|Hne].
    + rewrite list_lookup_alter_eq in Hj.
      destruct (ws !! j) as [fw0|]; [|done]. cbn in Hj.
      injection Hj as <-. done.
    + rewrite list_lookup_alter_ne in Hj by done.
      pose proof (Hopen j fw Hj Hcl) as Hgj.
      destruct (decide (path = filePath fw)) as [->|Hp].
      * congruence.
      * by rewrite get_delete_ne.
Qed.

(** Starting: a new open watcher, registered under a fresh path. *)
Lemma ok_start m ws path size :
  registry_ok m ws -> JsMap.get m path = None ->
  registry_ok (JsMap.set m path (length ws))
    (ws ++ [{| filePath := path; lastSize := size; closed := false |}]).
Proof.
  intros [Hnd Hopen] Hg. split.
  - rewrite keys_set_fresh by done. apply NoDup_app. split; [done|].
    split; [|apply NoDup_singleton].
    intros k Hk Hk'. apply list_elem_of_singleton in Hk'. subst k.
    by apply get_None_keys in Hg.
  - intros j fw Hj Hcl.
    destruct (decide (j < length ws)) as [Hlt|Hge].
    + rewrite lookup_app_l in Hj by done.
      pose proof (Hopen j fw Hj Hcl) as Hgj.
      rewrite get_set_ne; [done|]. intros ->. congruence.
    + rewrite lookup_app_r in Hj by lia.
      destruct (j - length ws) as [|n] eqn:E; [|done].
      cbn in Hj. injection Hj as <-. cbn.
      replace j with (length ws) by lia. apply get_set_eq.
Qed.

Lemma closeAll_lookup ids ws i :
  closeAll ids ws !! i
  = if bool_decide (i ∈ ids) then mark_closed <$> ws !! i else ws !! i.
Proof.
  revert ws. induction ids as [|j ids IH]; intros ws; [done|].
  change (closeAll (j :: ids) ws) with (closeAll ids (alter mark_closed j ws)).
  rewrite IH. destruct (decide (j = i)) as [->|Hne].
  - rewrite list_lookup_alter_eq.
    rewrite (bool_decide_eq_true_2 (i ∈ i :: ids)) by left.
    case_bool_decide; [|done]. by destruct (ws !! i).
  - rewrite list_lookup_alter_ne by done.
    case_bool_decide as Hin.
    + rewrite bool_decide_eq_true_2; [done|by right].
    + rewrite bool_decide_eq_false_2; [done|].
      rewrite not_elem_of_cons. split; [congruence|done].
Qed.

(** Once every registered watcher is closed, no watcher is open, and
    the registry can be cleared. *)
Lemma ok_clear m ws :
  registry_ok m ws -> registry_ok [] (closeAll (map snd m) ws).
Proof.
  intros [Hnd Hopen]. split; [apply NoDup_nil_2|].
  intros i fw Hi Hcl. exfalso. rewrite closeAll_lookup in Hi.
  case_bool_decide as Hin.
  - destruct (ws !! i); [|done]. cbn in Hi. injection Hi as <-. done.
  - apply Hin. pose proof (get_elem_of _ _ _ (Hopen i fw Hi Hcl)) as Hm.
    apply list_elem_of_In, in_map_iff. exists (filePath fw, i).
    split; [done|]. by apply list_elem_of_In.
Qed.

(** [forEachClose] leaves the registry alone and closes a prefix of
    the entries: all of them when it completes. *)
Lemma forEachClose_frame entries w :
  tailWatchers (snd (forEachClose entries w)) = tailWatchers w
  /\ exists ids,
       fsWatchers (snd (forEachClose entries w))
       = closeAll ids (fsWatchers w)
       /\ (fst (forEachClose entries w) = inr tt -> ids = map snd entries).
Proof.
  revert w. induction entries as [|[k i] entries IH]; intros w.
  - split; [done|]. by exists [].
  - cbn [forEachClose]. unfold bind at 1.
    destruct (closeRaises w i) eqn:Hc.
    + run_code. rewrite Hc. cbn. split; [done|]. exists []. by split.
    + run_code. rewrite Hc. cbn -[alter].
      match goal with |- context [forEachClose entries ?W] =>
        destruct (IH W) as (Ht & ids & Hw & Hr) end.
      split; [by rewrite Ht|]. exists (i :: ids). split; [by rewrite Hw|].
      intros Hok. cbn. by rewrite Hr.
Qed.

End Registry.

Section Reachability.

Implicit Types (w : World) (path : jsstring).

Lemma tailFile_preserves w : world_ok w -> world_ok (snd (tailFile w)).
Proof.
  unfold world_ok. intros Hok.
  destruct (activeTextEditor w) as [document|] eqn:He.
  2:{ rewrite tailFile_refused by (by rewrite He). done. }
  destruct (isLogFile document) eqn:Hl.
  2:{ rewrite tailFile_refused by (by rewrite He). done. }
  destruct (JsMap.get (tailWatchers w) (fileName document)) as [i|] eqn:Hg.
  - destruct (closeRaises w i) eqn:Hc.
    + by rewrite (tailFile_stop_raises w document i).
    + rewrite (tailFile_stop w document i) by done. by apply ok_stop.
  - apply has_false_get in Hg as Hh.
    destruct (fileSystem w (fileName document)) as [f|] eqn:Hf.
    + rewrite (tailFile_start w document f) by done. by apply ok_start.
    + by rewrite (tailFile_start_missing w document).
Qed.

Lemma listener_preserves w watcher eventType :
  world_ok w -> world_ok (snd (listener watcher eventType w)).
Proof.
  unfold world_ok. intros Hok.
  destruct (listener_frame w watcher eventType) as (-> & _ & [->|[s ->]]);
    [done|by apply ok_assigned].
Qed.

Lemma stopAll_preserves w (after : M unit) :
  (forall w1, tailWatchers (snd (after w1)) = tailWatchers w1
              /\ fsWatchers (snd (after w1)) = fsWatchers w1) ->
  world_ok w ->
  world_ok
    (snd (bind (gets tailWatchers)
            (fun registry =>
               bind (forEachClose registry)
                 (fun _ => bind clearTailWatchers (fun _ => after))) w)).
Proof.
  unfold world_ok. intros Hafter Hok.
  destruct (forEachClose_frame (tailWatchers w) w) as (Ht & ids & Hw & Hr).
  unfold bind, gets, clearTailWatchers, modify. cbn.
  destruct (forEachClose (tailWatchers w) w) as [[e|[]] w1] eqn:Hrun;
    cbn in Ht, Hw, Hr |- *.
  - rewrite Ht, Hw. by apply ok_closeAll.
  - destruct (Hafter (with_tailWatchers (JsMap.clear (tailWatchers w1)) w1))
      as [Ha1 Ha2].
    destruct (after _) as [r w2]. cbn in Ha1, Ha2 |- *.
    rewrite Ha1, Ha2. cbn. rewrite Hw, Hr by done. by apply ok_clear.
Qed.

Lemma dispose_preserves w : world_ok w -> world_ok (snd (dispose w)).
Proof.
  intros Hok.
  pose proof (stopAll_preserves w (ret tt) (fun _ => conj eq_refl eq_refl)
                Hok) as H.
  unfold world_ok in *. unfold dispose.
  revert H. unfold bind, gets, ret, clearTailWatchers, modify. cbn.
  by destruct (forEachClose (tailWatchers w) w) as [[e|[]] w1].
Qed.

Lemma deactivate_preserves w : world_ok w -> world_ok (snd (deactivate w)).
Proof.
  intros Hok.
  exact (stopAll_preserves w (ret tt) (fun _ => conj eq_refl eq_refl) Hok).
Qed.

Lemma step_preserves w w' : step w w' -> world_ok w -> world_ok w'.
Proof.
  intros Hstep Hok. destruct Hstep as [w|w i fw ev _ _|w|w|w w' Ht Hw].
  - by apply tailFile_preserves.
  - by apply listener_preserves.
  - by apply dispose_preserves.
  - by apply deactivate_preserves.
  - unfold world_ok. by rewrite Ht, Hw.
Qed.

(** The registry is well formed in every reachable state. *)
Lemma reachable_ok w : reachable w -> world_ok w.
Proof.
  intros (w0 & [Ht Hw] & Hrun).
  assert (world_ok w0) as H0.
  { unfold world_ok. rewrite Ht, Hw. split; [apply NoDup_nil_2|done]. }
  clear Ht Hw. induction Hrun as [w0|w0 w1 w2 Hs _ IH]; [done|].
  apply IH. by apply (step_preserves w0).
Qed.

End Reachability.

Section OpenWatchers.

Implicit Types (w : World) (path : jsstring).

Lemma elem_of_openWatchersOf w path i :
  i ∈ openWatchersOf w path
  <-> exists fw, fsWatchers w !! i = Some fw /\ closed fw = false
                 /\ filePath fw = path.
Proof.
  unfold openWatchersOf. rewrite list_elem_of_In, filter_In, in_seq.
  split.
  - intros [_ H]. destruct (fsWatchers w !! i) as [fw|]; [|done].
    apply andb_true_iff in H as [Hc Hp]. exists fw.
    split; [done|]. split; [by destruct (closed fw)|].
    by apply jsstring_eqb_eq.
  - intros (fw & Hi & Hc & Hp). split.
    + apply lookup_lt_Some in Hi. lia.
    + rewrite Hi, Hc. cbn. by apply jsstring_eqb_eq.
Qed.

Lemma NoDup_openWatchersOf w path : NoDup (openWatchersOf w path).
Proof.
  apply NoDup_ListNoDup. unfold openWatchersOf.
  apply List.NoDup_filter, List.seq_NoDup.
Qed.

Lemma length_le_1 {A} (l : list A) :
  NoDup l -> (forall x y, x ∈ l -> y ∈ l -> x = y) -> length l <= 1.
Proof.
  intros Hnd Heq. destruct l as [|x [|y l]]; cbn; [lia..|].
  exfalso. apply NoDup_cons in Hnd as [Hx _]. apply Hx.
  rewrite (Heq x y); [left|left|right; left].
Qed.

(** In a well-formed state the open watchers of a path are at most
    the one registered for it. *)
Lemma open_watchers_registered w path i :
  world_ok w -> i ∈ openWatchersOf w path ->
  JsMap.get (tailWatchers w) path = Some i.
Proof.
  intros [_ Hopen] (fw & Hi & Hc & <-)%elem_of_openWatchersOf.
  by apply Hopen.
Qed.

Lemma at_most_one_open w path :
  world_ok w -> length (openWatchersOf w path) <= 1.
Proof.
  intros Hok. apply length_le_1; [apply NoDup_openWatchersOf|].
  intros i j Hi Hj.
  apply (open_watchers_registered w path i Hok) in Hi.
  apply (open_watchers_registered w path j Hok) in Hj. congruence.
Qed.

End OpenWatchers.

(** C8: in every state reachable from activation by commands, change
    notifications, teardown and anything that does not touch the
    registry, [tailWatchers] has at most one entry per path and at most
    one watcher is open per path: the watcher of the path's session
    when there is one.  Invoking the tail command on a path whose
    session is active stops it (the watcher's [close] not raising): the
    path becomes inactive, none of its watchers stays open and no new
    watcher is created. *)
Theorem C8_at_most_one_session_per_path w :
  reachable w ->
  NoDup (JsMap.keys (tailWatchers w))
  /\ (forall path, length (openWatchersOf w path) <= 1)
  /\ (forall path watcher o,
        spec_activeSession w path watcher o ->
        openWatchersOf w path = [watcher])
  /\ (forall document watcher o,
        activeTextEditor w = Some document ->
        isLogFile document = true ->
        spec_activeSession w (fileName document) watcher o ->
        closeRaises w watcher = false ->
        exists w',
          tailFile w = (inr tt, w')
          /\ spec_inactive w' (fileName document)
          /\ openWatchersOf w' (fileName document) = []
          /\ length (fsWatchers w') = length (fsWatchers w)).
Proof.
  intros Hreach. pose proof (reachable_ok w Hreach) as Hok.
  split; [apply Hok|]. split; [intros path; by apply at_most_one_open|].
  split.
  - intros path watcher o [Hg Hw].
    assert (watcher ∈ openWatchersOf w path) as Hin.
    { apply elem_of_openWatchersOf. eexists. by split. }
    pose proof (at_most_one_open w path Hok) as Hlen.
    destruct (openWatchersOf w path) as [|i [|j l]]; cbn in Hlen;
      [by apply elem_of_nil in Hin | | lia].
    apply list_elem_of_singleton in Hin. by subst.
  - intros document watcher o He Hl [Hg Hw] Hc.
    pose proof (tailFile_preserves w Hok) as Hok'.
    rewrite (tailFile_stop w document watcher He Hl Hg Hc) in Hok'.
    eexists. split; [exact (tailFile_stop w document watcher He Hl Hg Hc)|].
    cbn -[alter JsMap.delete openWatchersOf] in Hok' |- *.
    assert (JsMap.get (JsMap.delete (tailWatchers w) (fileName document))
              (fileName document) = None) as Hnone
      by (apply get_delete_eq, Hok).
    split; [by apply has_false_get|].
    split; [|by rewrite length_alter].
    match goal with |- openWatchersOf ?W _ = [] =>
      destruct (openWatchersOf W (fileName document)) as [|i l] eqn:E end;
      [done|].
    exfalso.
    match type of E with openWatchersOf ?W _ = _ =>
      assert (JsMap.get (tailWatchers W) (fileName document) = Some i) as Hi
    end.
    { apply open_watchers_registered; [exact Hok'|]. rewrite E. left. }
    cbn -[JsMap.delete] in Hi. congruence.
Qed.

(** An instance: the state after one invocation of the command. *)
Lemma C8_at_most_one_session_per_path_witness :
  reachable (snd (tailFile freshWorld))
  /\ length (openWatchersOf (snd (tailFile freshWorld)) appLog) <= 1
  /\ exists w',
       tailFile (snd (tailFile freshWorld)) = (inr tt, w')
       /\ openWatchersOf w' appLog = [].
Proof.
  assert (reachable (snd (tailFile freshWorld))) as Hreach.
  { exists freshWorld. split; [split; reflexivity|].
    apply rtc_once, step_tailFile. }
  split; [exact Hreach|].
  destruct (C8_at_most_one_session_per_path _ Hreach)
    as (_ & Hone & _ & Htoggle).
  split; [apply Hone|].
  destruct (Htoggle appLogDocument 0 5) as (w' & Hrun & _ & Hnone & _);
    [reflexivity | reflexivity | split; reflexivity | reflexivity |].
  exists w'. split; [exact Hrun|exact Hnone].
Defined.

(** ** Teardown *)

Section Teardown.

Implicit Types (w : World) (entries : JsMap.t nat).

(** No [close] raises: every entry's watcher is closed, in order. *)
Lemma forEachClose_completes entries w :
  (forall k i, (k, i) ∈ entries -> closeRaises w i = false) ->
  forEachClose entries w
  = (inr tt,
     {| activeTextEditor := activeTextEditor w;
        fileSystem := fileSystem w;
        closeRaises := closeRaises w;
        tailWatchers := tailWatchers w;
        fsWatchers := closeAll (map snd entries) (fsWatchers w);
        outputChannel := outputChannel w;
        messages := messages w;
        fsCalls := fsCalls w ++ map WatcherClose (map snd entries) |}).
Proof.
  revert w. induction entries as [|[k i] entries IH]; intros w Hno.
  - destruct w. cbn. by rewrite app_nil_r.
  - cbn [forEachClose]. unfold bind at 1. run_code.
    rewrite (Hno k i) by left. cbn -[alter].
    rewrite IH by (intros k' j Hj; apply (Hno k' j); by right).
    cbn -[alter]. by rewrite <- app_assoc.
Qed.

(** The [close] of an entry raises: the entries before it are closed,
    the exception escapes there. *)
Lemma forEachClose_raises before k i after w :
  (forall k' j, (k', j) ∈ before -> closeRaises w j = false) ->
  closeRaises w i = true ->
  forEachClose (before ++ (k, i) :: after) w
  = (inl CloseFailed,
     {| activeTextEditor := activeTextEditor w;
        fileSystem := fileSystem w;
        closeRaises := closeRaises w;
        tailWatchers := tailWatchers w;
        fsWatchers := closeAll (map snd before) (fsWatchers w);
        outputChannel := outputChannel w;
        messages := messages w;
        fsCalls :=
          fsCalls w ++ map WatcherClose (map snd before ++ [i]) |}).
Proof.
  revert w. induction before as [|[k' j] before IH]; intros w Hno Hi.
  - cbn [app forEachClose]. unfold bind at 1. run_code.
    by rewrite Hi.
  - cbn [app forEachClose]. unfold bind at 1. run_code.
    rewrite (Hno k' j) by left. cbn -[alter].
    rewrite IH; [|intros k0 j0 Hj; apply (Hno k0 j0); by right|done].
    cbn -[alter]. by rewrite <- app_assoc.
Qed.

End Teardown.

(** C10, the claim fails: with two sessions, when closing the first
    watcher raises, [deactivate] ends with that exception, the second
    watcher is still open, and the registry still has both entries. *)
Lemma C10_a_failing_close_aborts_teardown :
  let w := tailingWorld (diskWith (Some (fileOf hello))) (Nat.eqb 0) in
  fst (deactivate w) = inl CloseFailed
  /\ fst (dispose w) = inl CloseFailed
  /\ fsWatchers (snd (deactivate w)) !! 1
     = Some {| filePath := dbLog; lastSize := 2; closed := false |}
  /\ tailWatchers (snd (deactivate w)) = [(appLog, 0); (dbLog, 1)]
  /\ fsCalls (snd (deactivate w)) = [WatcherClose 0].
Proof. cbn zeta. repeat split; reflexivity. Qed.

(** C10, as amended: teardown ([deactivate] and the [dispose] callback
    of [activate]) closes every registered watcher, in insertion order,
    and clears the registry only after that, provided that no [close]
    raises.  There is no handling of a failing [close]: when closing an
    entry raises, the exception escapes there; the watchers of the
    entries before it have been closed, those after it are not closed,
    and the registry is not cleared. *)
Theorem C10_teardown_closes_then_clears :
  (forall w,
      (forall k i, (k, i) ∈ tailWatchers w -> closeRaises w i = false) ->
      exists w1,
        forEachClose (tailWatchers w) w = (inr tt, w1)
        /\ tailWatchers w1 = tailWatchers w
        /\ fsWatchers w1 = closeAll (map snd (tailWatchers w)) (fsWatchers w)
        /\ (forall k i fw,
              (k, i) ∈ tailWatchers w -> fsWatchers w1 !! i = Some fw ->
              closed fw = true)
        /\ fsCalls w1
           = fsCalls w ++ map WatcherClose (map snd (tailWatchers w))
        /\ deactivate w = (inr tt, with_tailWatchers [] w1)
        /\ dispose w = (inr tt, with_tailWatchers [] w1))
  /\ (forall w before k i after,
        tailWatchers w = before ++ (k, i) :: after ->
        (forall k' j, (k', j) ∈ before -> closeRaises w j = false) ->
        closeRaises w i = true ->
        exists w',
          deactivate w = (inl CloseFailed, w')
          /\ dispose w = (inl CloseFailed, w')
          /\ tailWatchers w' = tailWatchers w
          /\ fsWatchers w' = closeAll (map snd before) (fsWatchers w)
          /\ fsCalls w'
             = fsCalls w ++ map WatcherClose (map snd before ++ [i])).
Proof.
  split.
  - intros w Hno.
    pose proof (forEachClose_completes (tailWatchers w) w Hno) as Hrun.
    eexists. split; [exact Hrun|]. cbn.
    split; [done|]. split; [done|]. split.
    { intros k i fw Hin Hi. rewrite closeAll_lookup in Hi.
      rewrite bool_decide_eq_true_2 in Hi.
      - destruct (fsWatchers w !! i); [|done]. cbn in Hi. by injection Hi as <-.
      - apply list_elem_of_In, in_map_iff. exists (k, i).
        split; [done|]. by apply list_elem_of_In. }
    split; [done|].
    unfold deactivate, dispose, bind, gets, clearTailWatchers, modify, ret.
    cbn. by rewrite Hrun.
  - intros w before k i after Hsplit Hno Hi.
    pose proof (forEachClose_raises before k i after w Hno Hi) as Hrun.
    rewrite <- Hsplit in Hrun.
    eexists.
    unfold deactivate, dispose, bind, gets, clearTailWatchers, modify, ret.
    cbn. rewrite Hrun. by repeat split.
Qed.

(** Two instances: no [close] raises; the second [close] raises. *)
Lemma C10_teardown_closes_then_clears_witness :
  (exists w1,
      deactivate (tailingWorld (diskWith None) (fun _ => false))
      = (inr tt, with_tailWatchers [] w1)
      /\ fsWatchers w1
         = [ {| filePath := appLog; lastSize := 5; closed := true |};
             {| filePath := dbLog; lastSize := 2; closed := true |} ])
  /\ (exists w',
        deactivate (tailingWorld (diskWith None) (Nat.eqb 1))
        = (inl CloseFailed, w')
        /\ tailWatchers w' = [(appLog, 0); (dbLog, 1)]).
Proof.
  split.
  - destruct (proj1 C10_teardown_closes_then_clears
                (tailingWorld (diskWith None) (fun _ => false)))
      as (w1 & _ & _ & Hw & _ & _ & Hrun & _); [done|].
    exists w1. split; [exact Hrun|exact Hw].
  - destruct (proj2 C10_teardown_closes_then_clears
                (tailingWorld (diskWith None) (Nat.eqb 1))
                [(appLog, 0)] dbLog 1 [])
      as (w' & Hrun & _ & Ht & _).
    + reflexivity.
    + intros k' j Hj. apply list_elem_of_singleton in Hj.
      by injection Hj as -> ->.
    + reflexivity.
    + exists w'. split; [exact Hrun|exact Ht].
Defined.

(** * Further properties *)

(** ** Letter case *)

Section LetterCase.

Implicit Types (r : node) (s line : jsstring).

Lemma isWordChar_upper c : (65 <= c <= 90)%N -> isWordChar c = true.
Proof.
  intros [H1 H2]. unfold isWordChar.
  rewrite (proj2 (N.leb_le 65 c) H1), (proj2 (N.leb_le c 90) H2).
  cbn. by rewrite !orb_true_r.
Qed.

Lemma isWordChar_lower c : (97 <= c <= 122)%N -> isWordChar c = true.
Proof.
  intros [H1 H2]. unfold isWordChar.
  by rewrite (proj2 (N.leb_le 97 c) H1), (proj2 (N.leb_le c 122) H2).
Qed.

Lemma canon_charEq x y :
  Canonicalize true x = Canonicalize true y -> charEq true x y = true.
Proof. intros H. unfold charEq. rewrite H. apply N.eqb_refl. Qed.

(** Letters that differ in case are both word characters. *)
Lemma canon_isWordChar x y :
  Canonicalize true x = Canonicalize true y -> isWordChar x = isWordChar y.
Proof.
  intros H. apply canon_charEq, charEq_cases in H.
  destruct H as [->|[[-> Hr]|[-> Hr]]]; [done|..].
  - rewrite (isWordChar_upper y) by done.
    apply isWordChar_lower. lia.
  - rewrite (isWordChar_upper x) by done. symmetry.
    apply isWordChar_lower. lia.
Qed.

Lemma isWordBoundary_sameCase p p' s s' :
  sameChar p p' -> sameUpToCase s s' ->
  isWordBoundary p s = isWordBoundary p' s'.
Proof.
  intros Hp Hs. unfold isWordBoundary. f_equal.
  - destruct p, p'; try done. by apply canon_isWordChar.
  - destruct Hs; [done|]. by apply canon_isWordChar.
Qed.

(** Under the [i] flag the matcher cannot tell such strings apart. *)
Lemma matchNode_sameCase r :
  forall p p' s s' e k k',
    sameChar p p' -> sameUpToCase s s' ->
    (forall q q' t t' e',
        sameChar q q' -> sameUpToCase t t' -> k q t e' = k' q' t' e') ->
    matchNode true r p s e k = matchNode true r p' s' e k'.
Proof.
  induction r as [|c|cs| |a IHa b IHb|a IHa b IHb|a IHa|a IHa];
    intros p p' s s' e k k' Hp Hs Hk; cbn [matchNode].
  - by apply Hk.
  - destruct Hs as [|x y t t' Hxy Ht]; [done|].
    unfold charEq. rewrite Hxy.
    destruct (_ =? _)%N; [|done]. by apply Hk.
  - destruct Hs as [|x y t t' Hxy Ht]; [done|].
    unfold charEq. rewrite Hxy.
    destruct (existsb _ cs); [|done]. by apply Hk.
  - rewrite (isWordBoundary_sameCase p p' s s') by done.
    destruct (isWordBoundary p' s'); [|done]. by apply Hk.
  - apply IHa; [done..|]. intros q q' t t' e' Hq Ht. by apply IHb.
  - rewrite (IHa p p' s s' e k k'), (IHb p p' s s' e k k') by done. done.
  - rewrite (IHa p p' s s' e k k') by done.
    destruct (matchNode true a p' s' e k'); [done|]. by apply Hk.
  - by apply IHa.
Qed.

Lemma search_sameCase r s s' :
  sameUpToCase s s' ->
  forall p p' i, sameChar p p' ->
    search true r p s i = search true r p' s' i.
Proof.
  induction 1 as [|x y t t' Hxy Ht IH]; intros p p' i Hp; cbn [search].
  - assert (sameUpToCase [] []) as Hnil by constructor.
    unfold matchAt.
    by rewrite (matchNode_sameCase r p p' [] [] i
                  (fun _ _ e => Some e) (fun _ _ e => Some e) Hp Hnil
                  (fun _ _ _ _ _ _ _ => eq_refl)).
  - assert (sameUpToCase (x :: t) (y :: t')) as Hcons by (by constructor).
    unfold matchAt.
    rewrite (matchNode_sameCase r p p' (x :: t) (y :: t') i
               (fun _ _ e => Some e) (fun _ _ e => Some e) Hp Hcons
               (fun _ _ _ _ _ _ _ => eq_refl)).
    destruct (matchNode true r p' (y :: t') i _); [done|]. by apply IH.
Qed.

Lemma matches_sameCase r line line' :
  sameUpToCase line line' -> matches true r line = matches true r line'.
Proof.
  intros H. unfold matches.
  by rewrite (search_sameCase r line line' H None None 0).
Qed.

Lemma levelMatches_sameCase level line line' :
  Forall (fun p => ignoreCase p = true) (patterns level) ->
  sameUpToCase line line' ->
  levelMatches level line = levelMatches level line'.
Proof.
  intros Hi Hs. unfold levelMatches.
  induction Hi as [|p ps Hp _ IH]; [done|]. cbn.
  by rewrite Hp, IH, (matches_sameCase _ line line').
Qed.

Lemma table_ignores_case :
  Forall (fun level => Forall (fun p => ignoreCase p = true) (patterns level))
    initializeLogLevels.
Proof. repeat constructor. Qed.

Lemma countLine_sameCase line line' c :
  sameUpToCase line line' -> countLine line c = countLine line' c.
Proof.
  intros Hs. unfold countLine. rewrite !test_not_global by done.
  by rewrite !(matches_sameCase _ line line' Hs).
Qed.

Lemma spec_lineRanges_ext f g n ls ls' :
  Forall2 (fun l l' => f l = g l') ls ls' ->
  spec_lineRanges f n ls = spec_lineRanges g n ls'.
Proof.
  intros H. revert n. induction H as [|l l' t t' Hl _ IH]; intros n; [done|].
  cbn. by rewrite Hl, IH.
Qed.

End LetterCase.

(** X1: all matching ignores the case of ASCII letters.  Two documents
    whose lines differ at most in letter case get the same decoration
    batches from [applyHighlights] and the same counts from
    [updateStatusBar]; line by line, the match set and the counted
    level are the same. *)
Theorem X1_letter_case_is_ignored d d' :
  Forall2 sameUpToCase (lines d) (lines d') ->
  fst (applyHighlights initializeLogLevels d)
  = fst (applyHighlights initializeLogLevels d')
  /\ updateStatusBar d = updateStatusBar d'
  /\ Forall2 (fun line line' =>
                spec_matchSet line = spec_matchSet line'
                /\ countedLevel line = countedLevel line')
       (lines d) (lines d').
Proof.
  intros H. split; [|split].
  - rewrite !applyHighlights_batches.
    pose proof table_ignores_case as Hi.
    induction Hi as [|level levels Hl _ IH]; [done|]. cbn [map].
    rewrite IH. do 2 f_equal. apply spec_lineRanges_ext.
    eapply Forall2_impl; [exact H|]. intros l l' Hs.
    by apply levelMatches_sameCase.
  - unfold updateStatusBar. generalize zeroCounts.
    induction H as [|l l' t t' Hl _ IH]; intros c; [done|]. cbn.
    by rewrite (countLine_sameCase l l' c Hl), IH.
  - eapply Forall2_impl; [exact H|]. intros l l' Hs. split.
    + unfold spec_matchSet. pose proof table_ignores_case as Hi.
      induction Hi as [|level levels Hl _ IH]; [done|]. cbn.
      rewrite (levelMatches_sameCase level l l' Hl Hs).
      destruct (levelMatches level l'); cbn; by rewrite IH.
    + unfold countedLevel. rewrite !test_not_global by done.
      by rewrite !(matches_sameCase _ l l' Hs).
Qed.

(** An instance: [Error: disk] and [ERROR: DISK]. *)
Lemma X1_letter_case_is_ignored_witness :
  updateStatusBar (oneLine "Error: disk") = updateStatusBar (oneLine "ERROR: DISK").
Proof.
  apply (X1_letter_case_is_ignored (oneLine "Error: disk")
           (oneLine "ERROR: DISK")).
  cbn. constructor; [|constructor].
  unfold sameUpToCase. repeat constructor.
Defined.

(** ** Whole words *)

Section WholeWords.

Implicit Types (r : node) (s line pre tok post : jsstring).

Lemma lastOr_cons prev x pre : lastOr (Some x) pre = lastOr prev (x :: pre).
Proof. unfold lastOr. rewrite last_cons. by destruct (last pre). Qed.

Lemma lastOr_None pre : lastOr None pre = last pre.
Proof. unfold lastOr. by destruct (last pre). Qed.

(** A match at some position is found by the search. *)
Lemma search_found ic r pre post :
  forall prev i,
    is_Some (matchAt ic r (lastOr prev pre) post (i + length pre)) ->
    is_Some (search ic r prev (pre ++ post) i).
Proof.
  induction pre as [|x pre IH]; intros prev i H.
  - cbn in *. rewrite Nat.add_0_r in H. change (lastOr prev []) with prev in H.
    destruct post; cbn; destruct (matchAt ic r prev _ i); eauto;
      by destruct H.
  - cbn [app search]. destruct (matchAt ic r prev _ i); [eauto|].
    apply IH. rewrite (lastOr_cons prev).
    by replace (S i + length pre) with (i + length (x :: pre)) by (cbn; lia).
Qed.

(** A literal run matches a string that differs from it in case only,
    and consumes it. *)
Lemma chars_match l tok :
  sameUpToCase tok l ->
  forall prev post e k,
    matchNode true (chars l) prev (tok ++ post) e k
    = k (lastOr prev tok) post (e + length tok).
Proof.
  induction 1 as [|x y t l' Hxy Ht IH]; intros prev post e k.
  - cbn. by rewrite Nat.add_0_r.
  - cbn [chars matchNode app]. rewrite (canon_charEq x y Hxy).
    rewrite IH, (lastOr_cons prev).
    by replace (S e + length t) with (e + length (x :: t)) by (cbn; lia).
Qed.

Lemma alternative_found ic r alt p s e k :
  hasAlternative r alt ->
  is_Some (matchNode ic alt p s e k) -> is_Some (matchNode ic r p s e k).
Proof.
  induction r as [|c|cs| |a IHa b IHb|a IHa b IHb|a IHa|a IHa];
    cbn [hasAlternative]; try (by intros ->).
  intros [Ha|Hb] H; cbn [matchNode].
  - destruct (IHa Ha H) as [m ->]. eauto.
  - destruct (matchNode ic a p s e k); [eauto|]. by apply IHb.
Qed.

Lemma sameUpToCase_last tok l :
  sameUpToCase tok l -> sameChar (last tok) (last l).
Proof.
  induction 1 as [|x y t l' Hxy Ht IH]; [done|].
  rewrite !last_cons. destruct (last t), (last l'); done.
Qed.

(** A keyword made of word characters, occurring as a whole word, is
    matched by a [\b(...)\b] pattern that has it as an alternative. *)
Lemma keyword_matches alts kw line :
  hasAlternative alts (lit kw) ->
  match head (str kw) with Some c => isWordChar c = true | None => False end ->
  match last (str kw) with Some c => isWordChar c = true | None => False end ->
  hasWord kw line ->
  matches true (word alts) line = true.
Proof.
  intros Halt Hhead Hlast (pre & tok & post & -> & Htok & Hpre & Hpost).
  apply matches_true, search_found.
  rewrite lastOr_None.
  unfold matchAt, word. cbn [matchNode].
  assert (isWordBoundary (last pre) (tok ++ post) = true) as ->.
  { unfold isWordBoundary. destruct Htok as [|x y t l' Hxy Ht]; [done|].
    cbn in Hhead |- *. rewrite (canon_isWordChar x y Hxy), Hhead.
    destruct (last pre); cbn in Hpre |- *; by rewrite ?Hpre. }
  apply (alternative_found true alts (lit kw)); [done|].
  unfold lit. rewrite (chars_match _ _ Htok).
  assert (isWordBoundary (lastOr (last pre) tok) post = true) as ->; [|eauto].
  pose proof (sameUpToCase_last _ _ Htok) as Hl.
  unfold isWordBoundary, lastOr.
  destruct (last tok) as [x|], (last (str kw)) as [y|]; try done.
  cbn in Hl. rewrite (canon_isWordChar x y Hl), Hlast.
  destruct post; cbn in Hpost |- *; by rewrite ?Hpost.
Qed.

End WholeWords.

Ltac keyword_cases H :=
  rewrite ?elem_of_cons, elem_of_nil in H;
  repeat (destruct H as [->|H]); [..|done].

(** X2: a line that has one of a level's keywords as a whole word, in
    any letter case, belongs to that level's match set: ERROR, FATAL,
    CRITICAL and SEVERE for ERROR; WARN and WARNING for WARN; INFO for
    INFO; DEBUG, TRACE and VERBOSE for DEBUG. *)
Theorem X2_whole_word_keywords_are_matched kw line :
  hasWord kw line ->
  (kw ∈ ["ERROR"; "FATAL"; "CRITICAL"; "SEVERE"]%string ->
   "ERROR"%string ∈ spec_matchSet line)
  /\ (kw ∈ ["WARN"; "WARNING"]%string -> "WARN"%string ∈ spec_matchSet line)
  /\ (kw = "INFO"%string -> "INFO"%string ∈ spec_matchSet line)
  /\ (kw ∈ ["DEBUG"; "TRACE"; "VERBOSE"]%string ->
      "DEBUG"%string ∈ spec_matchSet line).
Proof.
  intros Hw. rewrite spec_matchSet_unfold.
  assert (forall level alts rest,
      patterns level = re_gi (word alts) :: rest ->
      hasAlternative alts (lit kw) ->
      match head (str kw) with
      | Some c => isWordChar c = true | None => False end ->
      match last (str kw) with
      | Some c => isWordChar c = true | None => False end ->
      levelMatches level line = true) as Hlevel.
  { intros level alts rest Hp Ha Hh Hl. unfold levelMatches. rewrite Hp.
    cbn. by rewrite (keyword_matches alts kw line). }
  split; [|split; [|split]].
  - intros Hkw. keyword_cases Hkw;
      (rewrite (Hlevel errorLevel errorWords _ eq_refl);
       [set_solver | cbn; tauto | done | done]).
  - intros Hkw. keyword_cases Hkw;
      (rewrite (Hlevel warnLevel warnWords _ eq_refl);
       [set_solver | cbn; tauto | done | done]).
  - intros ->.
    rewrite (Hlevel infoLevel infoWords _ eq_refl);
      [set_solver | done | done | done].
  - intros Hkw. keyword_cases Hkw;
      (rewrite (Hlevel debugLevel debugWords _ eq_refl);
       [set_solver | cbn; tauto | done | done]).
Qed.

(** An instance: [fatal] between a bracket and a colon. *)
Lemma X2_whole_word_keywords_are_matched_witness :
  "ERROR"%string ∈ spec_matchSet (str "[fatal: out of memory").
Proof.
  apply (X2_whole_word_keywords_are_matched "FATAL"
           (str "[fatal: out of memory")).
  - exists (str "["), (str "fatal"), (str ": out of memory").
    split; [reflexivity|]. split; [|split; reflexivity].
    unfold sameUpToCase. repeat constructor.
  - set_solver.
Defined.

(** X3: a line that has ERROR, FATAL or CRITICAL as a whole word, in
    any letter case, is counted as an error by [updateStatusBar], and
    only as that; its primary level is ERROR too.  A line that has WARN
    or WARNING as a whole word is counted as a warning unless it is
    counted as an error, and a line that has INFO as a whole word is
    counted at some level. *)
Theorem X3_counting_keywords_are_counted kw line :
  hasWord kw line ->
  (kw ∈ ["ERROR"; "FATAL"; "CRITICAL"]%string ->
   countedLevel line = Some "ERROR"%string
   /\ spec_primaryLevel line = Some "ERROR"%string
   /\ forall c,
        countLine line c
        = {| errorCount := S (errorCount c); warnCount := warnCount c;
             infoCount := infoCount c |})
  /\ (kw ∈ ["WARN"; "WARNING"]%string ->
      countedLevel line = Some "ERROR"%string
      \/ (countedLevel line = Some "WARN"%string
          /\ forall c,
               countLine line c
               = {| errorCount := errorCount c;
                    warnCount := S (warnCount c);
                    infoCount := infoCount c |}))
  /\ (kw = "INFO"%string -> is_Some (countedLevel line)).
Proof.
  intros Hw. split; [|split].
  - intros Hkw.
    assert (fst (test countError line) = true) as He.
    { rewrite test_not_global by done.
      change (matches true
                (word (Alt (lit "ERROR") (Alt (lit "FATAL") (lit "CRITICAL"))))
                line = true).
      keyword_cases Hkw;
        (refine (keyword_matches _ _ line _ _ _ Hw); [cbn; tauto | done..]). }
    split; [unfold countedLevel; by rewrite He|].
    split.
    + unfold spec_primaryLevel. rewrite spec_matchSet_unfold.
      by rewrite (countError_covered _ He).
    + intros c. unfold countLine. by rewrite He.
  - intros Hkw.
    assert (fst (test countWarn line) = true) as Hwarn.
    { rewrite test_not_global by done.
      change (matches true (word warnWords) line = true).
      keyword_cases Hkw;
        (refine (keyword_matches _ _ line _ _ _ Hw); [cbn; tauto | done..]). }
    unfold countedLevel, countLine.
    destruct (fst (test countError line)); [by left|right].
    by rewrite Hwarn.
  - intros ->.
    assert (fst (test countInfo line) = true) as Hi.
    { rewrite test_not_global by done.
      apply (matches_mono true (word infoWords)).
      - intros prev s i H. by rewrite <- word_without_group in H.
      - by refine (keyword_matches _ _ line _ _ _ Hw). }
    unfold countedLevel.
    destruct (fst (test countError line)); [eauto|].
    destruct (fst (test countWarn line)); [eauto|]. rewrite Hi. eauto.
Qed.

(** An instance: the bracket tag [[Critical]]. *)
Lemma X3_counting_keywords_are_counted_witness :
  countedLevel (str "12:00 [Critical] disk full") = Some "ERROR"%string.
Proof.
  apply (X3_counting_keywords_are_counted "CRITICAL"
           (str "12:00 [Critical] disk full")).
  - exists (str "12:00 ["), (str "Critical"), (str "] disk full").
    split; [reflexivity|]. split; [|split; reflexivity].
    unfold sameUpToCase. repeat constructor.
  - set_solver.
Defined.

(** ** Decoration batches *)

Section Batches.

Implicit Types (f g : jsstring -> bool) (ls : list jsstring).

Lemma elem_of_spec_lineRanges f n ls m :
  m ∈ spec_lineRanges f n ls
  <-> exists i line, m = n + i /\ ls !! i = Some line /\ f line = true.
Proof.
  revert n. induction ls as [|l ls IH]; intros n; cbn.
  - split; [by intros ?%elem_of_nil|]. by intros (i & line & _ & ? & _).
  - rewrite elem_of_app, IH. split.
    + intros [H|(i & line & -> & Hi & Hf)].
      * destruct (f l) eqn:Hl; [|by apply elem_of_nil in H].
        apply list_elem_of_singleton in H as ->.
        exists 0, l. split; [lia|done].
      * exists (S i), line. split; [lia|done].
    + intros ([|i] & line & -> & Hi & Hf).
      * left. cbn in Hi. injection Hi as ->. rewrite Hf.
        rewrite Nat.add_0_r. apply list_elem_of_singleton. done.
      * right. exists i, line. split; [lia|done].
Qed.

Lemma spec_lineRanges_bounds f n ls :
  Forall (fun m => n <= m < n + length ls) (spec_lineRanges f n ls).
Proof.
  apply Forall_forall. intros m (i & line & -> & Hi & _)%elem_of_spec_lineRanges.
  apply lookup_lt_Some in Hi. lia.
Qed.

Lemma spec_lineRanges_sorted f n ls :
  StronglySorted lt (spec_lineRanges f n ls).
Proof.
  revert n. induction ls as [|l ls IH]; intros n; cbn; [constructor|].
  destruct (f l); cbn; [|apply IH]. constructor; [apply IH|].
  eapply Forall_impl; [apply spec_lineRanges_bounds|]. cbn. lia.
Qed.

Lemma length_spec_lineRanges f n ls :
  length (spec_lineRanges f n ls) = length (List.filter f ls).
Proof.
  revert n. induction ls as [|l ls IH]; intros n; cbn; [done|].
  rewrite length_app, IH. by destruct (f l).
Qed.

Lemma filter_length_mono f g ls :
  (forall l, f l = true -> g l = true) ->
  length (List.filter f ls) <= length (List.filter g ls).
Proof.
  intros H. induction ls as [|l ls IH]; cbn; [done|].
  destruct (f l) eqn:Hf.
  - rewrite (H l Hf). cbn. lia.
  - destruct (g l); cbn; lia.
Qed.

(** The tests of a pass move cursors only: afterwards each level still
    has its name and matches the same lines. *)
Lemma decorateLines_snd ps lineNum ls decorations line :
  existsb (fun p => matches (ignoreCase p) (source p) line)
    (snd (decorateLines ps lineNum ls decorations))
  = existsb (fun p => matches (ignoreCase p) (source p) line) ps.
Proof.
  revert ps lineNum decorations.
  induction ls as [|l ls IH]; intros ps lineNum decorations; [done|].
  cbn [decorateLines]. pose proof (testPatterns_snd ps l line) as Hs.
  destruct (testPatterns ps l) as [hit ps']. cbn in Hs. by rewrite IH.
Qed.

Lemma applyHighlights_snd levels document :
  Forall2 (fun level level' =>
             name level' = name level
             /\ forall line, levelMatches level' line = levelMatches level line)
    levels (snd (applyHighlights levels document)).
Proof.
  induction levels as [|level levels IH]; [constructor|].
  cbn [applyHighlights].
  pose proof (fun line =>
    decorateLines_snd (patterns level) 0 (lines document) [] line) as Hd.
  destruct (decorateLines _ _ _ _) as [decorations ps'].
  destruct (applyHighlights levels document) as [calls rest'].
  cbn in *. constructor; [|done]. split; [done|]. intros line.
  unfold levelMatches. cbn. apply Hd.
Qed.

End Batches.

(** X4: [applyHighlights] makes exactly one [setDecorations] call per
    level, in table order, and each batch lists line numbers of the
    document in strictly increasing order: a line is decorated at most
    once per level, however many of the level's patterns match it. *)
Theorem X4_one_sorted_batch_per_level levels document :
  map fst (fst (applyHighlights levels document)) = map name levels
  /\ Forall (fun call =>
               StronglySorted lt (snd call)
               /\ NoDup (snd call)
               /\ Forall (fun n => n < length (lines document)) (snd call))
       (fst (applyHighlights levels document)).
Proof.
  rewrite applyHighlights_batches. split.
  - rewrite map_map. done.
  - apply Forall_forall. intros call Hc.
    apply list_elem_of_In, in_map_iff in Hc as (level & <- & _). cbn.
    split; [apply spec_lineRanges_sorted|]. split.
    + generalize (spec_lineRanges_sorted (levelMatches level) 0
                    (lines document)).
      generalize (spec_lineRanges (levelMatches level) 0 (lines document)).
      induction 1 as [|a l _ IH Ha]; [apply NoDup_nil_2|].
      apply NoDup_cons_2; [|done].
      intros Hin. apply (proj1 (Forall_forall _ _) Ha) in Hin. lia.
    + eapply Forall_impl; [apply spec_lineRanges_bounds|]. cbn. lia.
Qed.

(** X5: a pass of [applyHighlights] leaves the shared patterns with
    moved cursors, and it does not matter: run again with the table as
    the first pass left it, on any document, it gives the batches the
    original table gives. *)
Theorem X5_highlighting_again_gives_the_same levels d d' :
  fst (applyHighlights (snd (applyHighlights levels d)) d')
  = fst (applyHighlights levels d').
Proof.
  rewrite !applyHighlights_batches.
  induction (applyHighlights_snd levels d) as [|l l' t t' [Hn Hm] _ IH];
    [done|].
  cbn. rewrite IH, Hn. do 2 f_equal.
  apply spec_lineRanges_ext. apply Forall_Forall2_diag, Forall_forall.
  intros line _. apply Hm.
Qed.

(** ** Counts *)

Section CountsFacts.

Implicit Types (ls : list jsstring) (c : Counts).

Lemma countLine_countedAs line c :
  countLine line c
  = {| errorCount :=
         errorCount c + (if countedAs "ERROR" line then 1 else 0);
       warnCount := warnCount c + (if countedAs "WARN" line then 1 else 0);
       infoCount :=
         infoCount c + (if countedAs "INFO" line then 1 else 0) |}.
Proof.
  unfold countLine, countedAs, countedLevel.
  destruct c as [e w i]. cbn.
  destruct (fst (test countError line)); cbn;
    [f_equal; lia|].
  destruct (fst (test countWarn line)); cbn; [f_equal; lia|].
  destruct (fst (test countInfo line)); cbn; f_equal; lia.
Qed.

(** The loop of [updateStatusBar], from any starting counts. *)
Lemma count_lines ls c :
  fold_left (fun c line => countLine line c) ls c
  = {| errorCount :=
         errorCount c + length (List.filter (countedAs "ERROR") ls);
       warnCount := warnCount c + length (List.filter (countedAs "WARN") ls);
       infoCount :=
         infoCount c + length (List.filter (countedAs "INFO") ls) |}.
Proof.
  revert c. induction ls as [|l ls IH]; intros c.
  - destruct c. cbn. f_equal; lia.
  - cbn [fold_left List.filter]. rewrite IH, countLine_countedAs. cbn.
    destruct (countedAs "ERROR" l), (countedAs "WARN" l),
      (countedAs "INFO" l); cbn; f_equal; lia.
Qed.

Lemma counted_once line :
  (if countedAs "ERROR" line then 1 else 0)
  + (if countedAs "WARN" line then 1 else 0)
  + (if countedAs "INFO" line then 1 else 0)
  = match countedLevel line with Some _ => 1 | None => 0 end.
Proof.
  unfold countedAs, countedLevel.
  destruct (fst (test countError line)); [done|].
  destruct (fst (test countWarn line)); [done|].
  by destruct (fst (test countInfo line)).
Qed.

Lemma countedAs_levelMatches line :
  (countedAs "ERROR" line = true -> levelMatches errorLevel line = true)
  /\ (countedAs "WARN" line = true -> levelMatches warnLevel line = true)
  /\ (countedAs "INFO" line = true -> levelMatches infoLevel line = true).
Proof.
  unfold countedAs, countedLevel.
  destruct (fst (test countError line)) eqn:He.
  { split; [intros _; by apply countError_covered|by split]. }
  destruct (fst (test countWarn line)) eqn:Hw.
  { split; [done|]. split; [intros _; by apply countWarn_covered|done]. }
  destruct (fst (test countInfo line)) eqn:Hi; [|done].
  split; [done|]. split; [done|]. intros _. by apply countInfo_covered.
Qed.

End CountsFacts.

(** X6: [updateStatusBar] counts every line at most once: the three
    counters add up to the number of lines that are counted at all,
    which is at most [lineCount]; and the counts of a document are the
    sums of the counts of its parts. *)
Theorem X6_every_line_is_counted_at_most_once d :
  errorCount (updateStatusBar d) + warnCount (updateStatusBar d)
  + infoCount (updateStatusBar d)
  = length (List.filter
              (fun line =>
                 match countedLevel line with Some _ => true | None => false end)
              (lines d))
  /\ errorCount (updateStatusBar d) + warnCount (updateStatusBar d)
     + infoCount (updateStatusBar d) <= length (lines d)
  /\ forall d1 d2,
       lines d = lines d1 ++ lines d2 ->
       errorCount (updateStatusBar d)
       = errorCount (updateStatusBar d1) + errorCount (updateStatusBar d2)
       /\ warnCount (updateStatusBar d)
          = warnCount (updateStatusBar d1) + warnCount (updateStatusBar d2)
       /\ infoCount (updateStatusBar d)
          = infoCount (updateStatusBar d1) + infoCount (updateStatusBar d2).
Proof.
  assert (errorCount (updateStatusBar d) + warnCount (updateStatusBar d)
          + infoCount (updateStatusBar d)
          = length (List.filter
              (fun line =>
                 match countedLevel line with Some _ => true | None => false end)
              (lines d))) as Hsum.
  { unfold updateStatusBar. rewrite count_lines. cbn.
    induction (lines d) as [|l ls IH]; [done|]. cbn [List.filter].
    pose proof (counted_once l) as Hl.
    destruct (countedAs "ERROR" l), (countedAs "WARN" l),
      (countedAs "INFO" l), (countedLevel l); cbn in *; lia. }
  split; [exact Hsum|]. split.
  - rewrite Hsum. apply List.filter_length_le.
  - intros d1 d2 Hl. unfold updateStatusBar. rewrite !count_lines, Hl.
    rewrite !List.filter_app, !length_app. cbn. lia.
Qed.

(** An instance: the end-to-end document, split after its first line. *)
Lemma X6_every_line_is_counted_at_most_once_witness :
  errorCount (updateStatusBar endToEndDocument)
  = errorCount (updateStatusBar (oneLine "2024 ERROR db down"))
    + errorCount (updateStatusBar (logDocument ("2024 INFO ok" ++ LF))).
Proof.
  apply (proj2 (proj2 (X6_every_line_is_counted_at_most_once
                         endToEndDocument))
           (oneLine "2024 ERROR db down")
           (logDocument ("2024 INFO ok" ++ LF))).
  vm_compute. reflexivity.
Defined.

(** X7: the status bar never counts what the highlighting does not
    show: every line counted at a level is in the decoration batch that
    [applyHighlights] makes for that level, so each counter is at most
    the size of its level's batch. *)
Theorem X7_counted_lines_are_highlighted d :
  exists errors warnings infos debugs,
    fst (applyHighlights initializeLogLevels d)
    = [("ERROR"%string, errors); ("WARN"%string, warnings);
       ("INFO"%string, infos); ("DEBUG"%string, debugs)]
    /\ errorCount (updateStatusBar d) <= length errors
    /\ warnCount (updateStatusBar d) <= length warnings
    /\ infoCount (updateStatusBar d) <= length infos
    /\ forall n line,
         lines d !! n = Some line ->
         (countedLevel line = Some "ERROR"%string -> n ∈ errors)
         /\ (countedLevel line = Some "WARN"%string -> n ∈ warnings)
         /\ (countedLevel line = Some "INFO"%string -> n ∈ infos).
Proof.
  rewrite applyHighlights_batches. do 4 eexists. split; [reflexivity|].
  unfold updateStatusBar. rewrite count_lines. cbn.
  rewrite !length_spec_lineRanges.
  split; [apply filter_length_mono; intros l; apply countedAs_levelMatches|].
  split; [apply filter_length_mono; intros l; apply countedAs_levelMatches|].
  split; [apply filter_length_mono; intros l; apply countedAs_levelMatches|].
  intros n line Hn.
  destruct (countedAs_levelMatches line) as (He & Hw & Hi).
  repeat split; intros Hc; apply elem_of_spec_lineRanges;
    exists n, line; (split; [done|]); (split; [done|]);
    [apply He|apply Hw|apply Hi]; unfold countedAs; by rewrite Hc.
Qed.

(** ** The filtered view *)

Section Filter.

Implicit Types (levels : list LogLevel) (level : string) (line : jsstring).

Lemma testLevel_fst levels level line :
  fst (testLevel levels level line) = levelTest levels level line.
Proof.
  unfold levelTest. induction levels as [|l levels IH]; [done|].
  cbn [testLevel findLevel]. destruct (String.eqb (name l) level).
  - pose proof (testPatterns_fst (patterns l) line) as Hf.
    by destruct (testPatterns (patterns l) line).
  - by destruct (testLevel levels level line).
Qed.

(** Testing a level moves cursors only. *)
Lemma testLevel_snd levels level line level' line' :
  levelTest (snd (testLevel levels level line)) level' line'
  = levelTest levels level' line'.
Proof.
  unfold levelTest. induction levels as [|l levels IH]; [done|].
  cbn [testLevel]. destruct (String.eqb (name l) level) eqn:E.
  - pose proof (testPatterns_snd (patterns l) line line') as Hs.
    destruct (testPatterns (patterns l) line) as [hit ps']. cbn in *.
    destruct (String.eqb (name l) level'); [|done].
    unfold levelMatches. by cbn.
  - destruct (testLevel levels level line) as [hit rest']. cbn in *.
    by destruct (String.eqb (name l) level').
Qed.

Lemma filterLines_all levels i ls acc :
  filterLines levels "All Levels" i ls acc = (acc ++ map Plain ls, levels).
Proof.
  revert i acc. induction ls as [|l ls IH]; intros i acc; cbn.
  - by rewrite app_nil_r.
  - by rewrite IH, <- app_assoc.
Qed.

Lemma filterLines_level levels level i ls acc :
  String.eqb level "All Levels" = false ->
  omap lineNumber (fst (filterLines levels level i ls acc))
  = omap lineNumber acc
    ++ map S (spec_lineRanges (levelTest levels level) i ls)
  /\ map lineText (fst (filterLines levels level i ls acc))
     = map lineText acc ++ List.filter (levelTest levels level) ls.
Proof.
  intros Hall. revert levels i acc.
  induction ls as [|l ls IH]; intros levels i acc.
  - cbn. by rewrite !app_nil_r.
  - cbn [filterLines]. rewrite Hall.
    pose proof (testLevel_fst levels level l) as Hf.
    pose proof (fun line' => testLevel_snd levels level l level line') as Hs.
    destruct (testLevel levels level l) as [hit levels']. cbn in Hf, Hs.
    destruct (IH levels' (S i)
                (if hit then acc ++ [Numbered (i + 1) l] else acc))
      as [IH1 IH2].
    rewrite IH1, IH2. clear IH IH1 IH2.
    assert (spec_lineRanges (levelTest levels' level) (S i) ls
            = spec_lineRanges (levelTest levels level) (S i) ls) as ->.
    { apply spec_lineRanges_ext, Forall_Forall2_diag, Forall_forall.
      intros line' _. apply Hs. }
    assert (List.filter (levelTest levels' level) ls
            = List.filter (levelTest levels level) ls) as ->.
    { apply List.filter_ext. intros line'. apply Hs. }
    cbn [spec_lineRanges List.filter]. rewrite <- Hf.
    destruct hit; cbn.
    + rewrite omap_app, map_app. cbn. rewrite <- !app_assoc. cbn.
      by replace (i + 1) with (S i) by lia.
    + done.
Qed.

Lemma filter_none (ls : list jsstring) :
  List.filter (fun _ => false) ls = [].
Proof. by induction ls. Qed.

Lemma findLevel_Some levels level l :
  findLevel levels level = Some l -> l ∈ levels /\ name l = level.
Proof.
  induction levels as [|l0 levels IH]; [done|]. cbn.
  destruct (String.eqb_spec (name l0) level).
  - intros [= ->]. split; [left|done].
  - intros H. destruct (IH H). split; [by right|done].
Qed.

End Filter.

(** X8: [filterByLevel] on a log document.  With [All Levels] it shows
    every line, unnumbered and in order.  With the name of a level it
    shows exactly the lines that [applyHighlights] decorates for that
    level, in order, each with its one-based line number, and the count
    in the header is their number.  With a name that no level has it
    shows no line. *)
Theorem X8_filter_shows_the_highlighted_lines levels document level :
  isLogFile document = true ->
  level <> ""%string ->
  (level = "All Levels"%string ->
   filterByLevel levels (Some document) (Some level)
   = (FilterShown level (length (lines document))
        (map Plain (lines document)), levels))
  /\ (level <> "All Levels"%string ->
      exists filtered batch,
        fst (filterByLevel levels (Some document) (Some level))
        = FilterShown level (length batch) filtered
        /\ omap lineNumber filtered = map S batch
        /\ length filtered = length batch
        /\ match findLevel levels level with
           | Some l =>
               (name l, batch) ∈ fst (applyHighlights levels document)
               /\ map lineText filtered
                  = List.filter (levelMatches l) (lines document)
           | None => filtered = []
           end).
Proof.
  intros Hlog Hne. unfold filterByLevel. rewrite Hlog. cbn [negb].
  rewrite (proj2 (String.eqb_neq level "") Hne).
  split.
  - intros ->. rewrite filterLines_all. cbn. by rewrite length_map.
  - intros Hall. apply String.eqb_neq in Hall.
    destruct (filterLines_level levels level 0 (lines document) [] Hall)
      as [Hn Ht].
    destruct (filterLines levels level 0 (lines document) [])
      as [filtered levels'] eqn:Hrun. cbn in Hn, Ht |- *.
    assert (length filtered
            = length (spec_lineRanges (levelTest levels level) 0
                        (lines document))) as Hlen.
    { rewrite <- (length_map lineText), Ht.
      by rewrite length_spec_lineRanges. }
    exists filtered,
      (spec_lineRanges (levelTest levels level) 0 (lines document)).
    split; [congruence|]. split; [done|]. split; [done|].
    unfold levelTest in *. destruct (findLevel levels level) as [l|] eqn:Hfind.
    + split; [|done]. rewrite applyHighlights_batches.
      apply findLevel_Some in Hfind as [Hin _].
      apply list_elem_of_In, in_map_iff. exists l.
      split; [done|]. by apply list_elem_of_In.
    + rewrite filter_none in Ht. by destruct filtered.
Qed.

(** An instance: the warnings of a three-line document. *)
Lemma X8_filter_shows_the_highlighted_lines_witness :
  exists filtered batch,
    fst (filterByLevel initializeLogLevels
           (Some (logDocument ("boot ok" ++ LF ++ "WARN low disk" ++ LF)))
           (Some "WARN"%string))
    = FilterShown "WARN" (length batch) filtered
    /\ omap lineNumber filtered = map S batch.
Proof.
  destruct (X8_filter_shows_the_highlighted_lines initializeLogLevels
              (logDocument ("boot ok" ++ LF ++ "WARN low disk" ++ LF))
              "WARN") as [_ Hlevel]; [reflexivity | discriminate |].
  destruct Hlevel as (filtered & batch & Hrun & Hn & _); [discriminate|].
  exists filtered, batch. split; [exact Hrun|exact Hn].
Defined.

(** ** Log files *)

Section LogFiles.

Implicit Types (s suffix : jsstring).

Lemma endsWith_true s suffix :
  endsWith s suffix = true <-> exists base, s = base ++ suffix.
Proof.
  unfold endsWith. rewrite andb_true_iff, Nat.leb_le, jsstring_eqb_eq. split.
  - intros [Hle Hd]. exists (take (length s - length suffix) s).
    symmetry. etrans; [|apply (take_drop (length s - length suffix) s)].
    by rewrite Hd.
  - intros [base ->]. rewrite length_app. split; [lia|].
    replace (length base + length suffix - length suffix) with (length base)
      by lia.
    by rewrite drop_app_length.
Qed.

Lemma toLowerCase_app a b :
  toLowerCase (a ++ b) = toLowerCase a ++ toLowerCase b.
Proof. unfold toLowerCase. apply map_app. Qed.

(** A lower-cased name ends with a suffix exactly when the name ends
    with some spelling of it. *)
Lemma endsWith_toLowerCase s suffix :
  endsWith (toLowerCase s) suffix = true
  <-> exists base ext, s = base ++ ext /\ toLowerCase ext = suffix.
Proof.
  rewrite endsWith_true. split.
  - intros [base' H].
    exists (take (length base') s), (drop (length base') s).
    split; [by rewrite take_drop|].
    unfold toLowerCase in *. rewrite <- List.skipn_map, H.
    by rewrite drop_app_length.
  - intros (base & ext & -> & <-). exists (toLowerCase base).
    apply toLowerCase_app.
Qed.

End LogFiles.

(** X9: [isLogFile] accepts a document exactly when its file name ends
    with [.log] or [.logs] in any letter case, or its language id is
    [log] (exactly, in lower case). *)
Theorem X9_log_files_by_suffix_or_language document :
  isLogFile document = true
  <-> (exists base ext,
          fileName document = base ++ ext
          /\ (toLowerCase ext = str ".log" \/ toLowerCase ext = str ".logs"))
      \/ languageId document = str "log".
Proof.
  unfold isLogFile.
  rewrite !orb_true_iff, !endsWith_toLowerCase, jsstring_eqb_eq.
  split.
  - intros [[(base & ext & ? & ?)|(base & ext & ? & ?)]|?]; eauto 6.
  - intros [(base & ext & ? & [?|?])|?]; eauto 6.
Qed.

(** ** Change notifications *)

Section Notifications.

Implicit Types (w : World) (fw : FSWatcher) (f : File).

(** What a run of the listener can do to the state, case by case. *)
Lemma listener_cases w watcher eventType :
  listener watcher eventType w = (inr tt, w)
  \/ (exists fw, fsWatchers w !! watcher = Some fw
        /\ listener watcher eventType w
           = (inr tt, with_fsCalls (fsCalls w ++ [StatSync (filePath fw)]) w))
  \/ (exists fw e calls, fsWatchers w !! watcher = Some fw
        /\ listener watcher eventType w
           = (inl e, with_fsCalls (fsCalls w ++ calls) w))
  \/ (exists fw f op calls,
        fsWatchers w !! watcher = Some fw
        /\ fileSystem w (filePath fw) = Some f
        /\ length (data f) <> lastSize fw
        /\ listener watcher eventType w
           = (inr tt,
              {| activeTextEditor := activeTextEditor w;
                 fileSystem := fileSystem w;
                 closeRaises := closeRaises w;
                 tailWatchers := tailWatchers w;
                 fsWatchers :=
                   alter (assigned (length (data f))) watcher (fsWatchers w);
                 outputChannel := outputChannel w ++ [op];
                 messages := messages w;
                 fsCalls := fsCalls w ++ calls |})).
Proof.
  destruct eventType; [|by left].
  destruct (fsWatchers w !! watcher) as [fw|] eqn:Hw.
  2:{ left. run_code. by rewrite Hw. }
  destruct (fileSystem w (filePath fw)) as [f|] eqn:Hf.
  2:{ right; right; left. exists fw, ENOENT. eexists. split; [done|].
      by apply listener_missing. }
  destruct (lt_eq_lt_dec (lastSize fw) (length (data f))) as [[Hlt|Heq]|Hgt].
  - destruct (readable f) eqn:Hr.
    + right; right; right. exists fw, f. do 2 eexists.
      split; [done|]. split; [done|]. split; [lia|].
      by apply (listener_grown w watcher fw f).
    + right; right; left. exists fw, EACCES. eexists. split; [done|].
      by apply (listener_unreadable w watcher fw f).
  - right; left. exists fw. split; [done|]. by apply (listener_same_size _ _ _ f).
  - right; right; right. exists fw, f. do 2 eexists.
    split; [done|]. split; [done|]. split; [lia|].
    by apply (listener_shrunk w watcher fw f).
Qed.

End Notifications.

(** X10: after a change notification that the listener handles to the
    end, the tracked offset of the session is the size the file has:
    whether the file grew, shrank or kept its size. *)
Theorem X10_offset_is_the_size_after_a_notification
    w path watcher o f w' :
  spec_activeSession w path watcher o ->
  fileSystem w path = Some f ->
  listener watcher change w = (inr tt, w') ->
  spec_activeSession w' path watcher (length (data f)).
Proof.
  intros Hs Hf Hrun. pose proof (session_watcher _ _ _ _ Hs) as Hw.
  destruct (lt_eq_lt_dec o (length (data f))) as [[Hlt|Heq]|Hgt].
  - destruct (readable f) eqn:Hr.
    + rewrite (listener_grown w watcher _ f Hw Hf Hr Hlt) in Hrun.
      injection Hrun as <-. by eapply session_assigned.
    + by rewrite (listener_unreadable w watcher _ f Hw Hf Hr Hlt) in Hrun.
  - rewrite (listener_same_size w watcher _ f Hw Hf (eq_sym Heq)) in Hrun.
    injection Hrun as <-. subst o. destruct Hs as [Hg Hl]. by split.
  - rewrite (listener_shrunk w watcher _ f Hw Hf Hgt) in Hrun.
    injection Hrun as <-. by eapply session_assigned.
Qed.

(** An instance: [app.log] cut to two bytes. *)
Lemma X10_offset_is_the_size_after_a_notification_witness :
  spec_activeSession
    (snd (listener 0 change
            (tailingWorld (diskWith (Some (fileOf [Byte.x68; Byte.x65])))
               (fun _ => false))))
    appLog 0 2.
Proof.
  apply (X10_offset_is_the_size_after_a_notification
           (tailingWorld (diskWith (Some (fileOf [Byte.x68; Byte.x65])))
              (fun _ => false))
           appLog 0 5 (fileOf [Byte.x68; Byte.x65])).
  - split; reflexivity.
  - reflexivity.
  - reflexivity.
Defined.

(** X11: whatever the event, the state of the file and the outcome, a
    run of the listener leaves the registry, the messages and the
    environment as they are, creates and closes no watcher, touches no
    watcher but its own, of which it changes at most the offset, and
    writes at most one entry on the output channel: none when it ends
    with an exception, and nothing at all changes on a [rename] event. *)
Theorem X11_listener_touches_only_its_own_offset w watcher eventType :
  let r := fst (listener watcher eventType w) in
  let w' := snd (listener watcher eventType w) in
  tailWatchers w' = tailWatchers w
  /\ messages w' = messages w
  /\ activeTextEditor w' = activeTextEditor w
  /\ fileSystem w' = fileSystem w
  /\ length (fsWatchers w') = length (fsWatchers w)
  /\ (forall other, other <> watcher ->
        fsWatchers w' !! other = fsWatchers w !! other)
  /\ filePath <$> fsWatchers w' !! watcher
     = filePath <$> fsWatchers w !! watcher
  /\ closed <$> fsWatchers w' !! watcher = closed <$> fsWatchers w !! watcher
  /\ (exists ops,
        outputChannel w' = outputChannel w ++ ops
        /\ length ops <= 1
        /\ (r <> inr tt -> ops = []))
  /\ (eventType = rename -> r = inr tt /\ w' = w).
Proof.
  cbn zeta.
  assert (eventType = rename ->
          fst (listener watcher eventType w) = inr tt
          /\ snd (listener watcher eventType w) = w) as Hrename
    by (by intros ->).
  destruct (listener_cases w watcher eventType)
    as [Hrun|[(fw & Hw & Hrun)|[(fw & e & calls & Hw & Hrun)
       |(fw & f & op & calls & Hw & Hf & Hne & Hrun)]]].
  - rewrite Hrun in *. cbn in *. split_and!; try done.
    exists []. rewrite app_nil_r. split_and!; [done | cbn; lia | done].
  - rewrite Hrun in *. cbn in *. split_and!; try done.
    exists []. rewrite app_nil_r. split_and!; [done | cbn; lia | done].
  - rewrite Hrun in *. cbn in *. split_and!; try done.
    exists []. rewrite app_nil_r. split_and!; [done | cbn; lia | done].
  - rewrite Hrun in *. cbn -[alter] in *.
    split; [done|]. split; [done|]. split; [done|]. split; [done|].
    split; [by rewrite length_alter|].
    split; [intros other Hne'; by apply list_lookup_alter_ne|].
    rewrite list_lookup_alter_eq, Hw. cbn.
    split; [done|]. split; [done|]. split; [|done].
    exists [op]. split; [done|]. split; [cbn; lia|done].
Qed.

(** ** A file that keeps growing *)

Section Growth.

Implicit Types (w : World) (content chunk : list Byte.byte).

Lemma spec_events_with_fileSystem fs w :
  spec_events (with_fileSystem fs w) = spec_events w.
Proof. reflexivity. Qed.



End Growth.



(** ** Sessions of other paths *)

Section Registered.

Implicit Types (m : JsMap.t nat) (ws : list FSWatcher) (w : World).

Lemma registered_alter m ws i (g : FSWatcher -> FSWatcher) :
  (forall fw, filePath (g fw) = filePath fw) ->
  registered_ok m ws -> registered_ok m (alter g i ws).
Proof.
  intros Hg Hok path j Hj. destruct (Hok path j Hj) as (fw & Hfw & Hp).
  destruct (decide (i = j)) as [->|Hne].
  - exists (g fw). rewrite list_lookup_alter_eq, Hfw. by rewrite Hg.
  - exists fw. by rewrite list_lookup_alter_ne.
Qed.

Lemma registered_closeAll m ws ids :
  registered_ok m ws -> registered_ok m (closeAll ids ws).
Proof.
  revert ws. induction ids as [|i ids IH]; intros ws H; [done|].
  change (closeAll (i :: ids) ws) with (closeAll ids (alter mark_closed i ws)).
  apply IH. by apply registered_alter.
Qed.

Lemma registered_nil ws : registered_ok [] ws.
Proof. by intros path i. Qed.

Lemma registered_start m ws path size :
  registered_ok m ws ->
  registered_ok (JsMap.set m path (length ws))
    (ws ++ [{| filePath := path; lastSize := size; closed := false |}]).
Proof.
  intros Hok p i Hp. destruct (decide (path = p)) as [->|Hne].
  - rewrite get_set_eq in Hp. injection Hp as <-.
    eexists. split; [by apply list_lookup_middle|done].
  - rewrite get_set_ne in Hp by done.
    destruct (Hok p i Hp) as (fw & Hfw & Hpath). exists fw.
    split; [|done]. rewrite lookup_app_l; [done|]. by eapply lookup_lt_Some.
Qed.

Lemma registered_stop m ws path i :
  NoDup (JsMap.keys m) ->
  registered_ok m ws ->
  registered_ok (JsMap.delete m path) (alter mark_closed i ws).
Proof.
  intros Hnd Hok. apply registered_alter; [done|]. intros p j Hp.
  destruct (decide (path = p)) as [->|Hne].
  - by rewrite get_delete_eq in Hp.
  - rewrite get_delete_ne in Hp by done. by apply Hok.
Qed.

Lemma tailFile_registered w :
  world_ok w -> world_registered w -> world_registered (snd (tailFile w)).
Proof.
  unfold world_registered. intros Hok Hreg.
  destruct (activeTextEditor w) as [document|] eqn:He.
  2:{ rewrite tailFile_refused by (by rewrite He). done. }
  destruct (isLogFile document) eqn:Hl.
  2:{ rewrite tailFile_refused by (by rewrite He). done. }
  destruct (JsMap.get (tailWatchers w) (fileName document)) as [i|] eqn:Hg.
  - destruct (closeRaises w i) eqn:Hc.
    + by rewrite (tailFile_stop_raises w document i).
    + rewrite (tailFile_stop w document i) by done.
      apply registered_stop; [apply Hok|done].
  - apply has_false_get in Hg as Hh.
    destruct (fileSystem w (fileName document)) as [f|] eqn:Hf.
    + rewrite (tailFile_start w document f) by done. by apply registered_start.
    + by rewrite (tailFile_start_missing w document).
Qed.

Lemma listener_registered w watcher eventType :
  world_registered w -> world_registered (snd (listener watcher eventType w)).
Proof.
  unfold world_registered. intros Hreg.
  destruct (listener_frame w watcher eventType) as (-> & _ & [->|[s ->]]);
    [done|by apply registered_alter].
Qed.

Lemma teardown_registered w (after : M unit) :
  (forall w1, tailWatchers (snd (after w1)) = tailWatchers w1
              /\ fsWatchers (snd (after w1)) = fsWatchers w1) ->
  world_registered w ->
  world_registered
    (snd (bind (gets tailWatchers)
            (fun registry =>
               bind (forEachClose registry)
                 (fun _ => bind clearTailWatchers (fun _ => after))) w)).
Proof.
  unfold world_registered. intros Hafter Hreg.
  destruct (forEachClose_frame (tailWatchers w) w) as (Ht & ids & Hw & Hr).
  unfold bind, gets, clearTailWatchers, modify. cbn.
  destruct (forEachClose (tailWatchers w) w) as [[e|[]] w1] eqn:Hrun;
    cbn in Ht, Hw, Hr |- *.
  - rewrite Ht, Hw. by apply registered_closeAll.
  - destruct (Hafter (with_tailWatchers (JsMap.clear (tailWatchers w1)) w1))
      as [Ha1 Ha2].
    destruct (after _) as [r w2]. cbn in Ha1, Ha2 |- *.
    rewrite Ha1, Ha2. cbn. apply registered_nil.
Qed.

Lemma step_registered w w' :
  step w w' -> world_ok w -> world_registered w -> world_registered w'.
Proof.
  intros Hstep Hok Hreg.
  destruct Hstep as [w|w i fw ev _ _|w|w|w w' Ht Hw].
  - by apply tailFile_registered.
  - by apply listener_registered.
  - pose proof (teardown_registered w (ret tt)
                  (fun _ => conj eq_refl eq_refl) Hreg) as H.
    unfold world_registered in *. unfold dispose. revert H.
    unfold bind, gets, ret, clearTailWatchers, modify. cbn.
    by destruct (forEachClose (tailWatchers w) w) as [[e|[]] w1].
  - exact (teardown_registered w (ret tt)
             (fun _ => conj eq_refl eq_refl) Hreg).
  - unfold world_registered. by rewrite Ht, Hw.
Qed.

Lemma reachable_registered w : reachable w -> world_registered w.
Proof.
  intros (w0 & [Ht Hw] & Hrun).
  assert (world_ok w0 /\ world_registered w0) as H0.
  { unfold world_ok, world_registered. rewrite Ht, Hw.
    split; [split; [apply NoDup_nil_2|done]|apply registered_nil]. }
  clear Ht Hw. induction Hrun as [w0|w0 w1 w2 Hs _ IH]; [apply H0|].
  apply IH. destruct H0 as [Hok Hreg].
  split; [by apply (step_preserves w0)|by apply (step_registered w0)].
Qed.

End Registered.

(** X13: in a reachable state, invoking the tail command for the file
    in the active editor leaves the sessions of all other paths as they
    are: still registered, their watchers open, their offsets
    unchanged; whether the command starts a session, stops one, is
    refused or ends with an exception. *)
Theorem X13_toggle_leaves_other_sessions w path watcher o :
  reachable w ->
  spec_activeSession w path watcher o ->
  (forall document,
      activeTextEditor w = Some document -> fileName document <> path) ->
  spec_activeSession (snd (tailFile w)) path watcher o.
Proof.
  intros Hreach [Hg Hw] Hother.
  pose proof (reachable_registered w Hreach) as Hreg.
  destruct (activeTextEditor w) as [document|] eqn:He.
  2:{ rewrite tailFile_refused by (by rewrite He). by split. }
  specialize (Hother document eq_refl).
  destruct (isLogFile document) eqn:Hl.
  2:{ rewrite tailFile_refused by (by rewrite He). by split. }
  destruct (JsMap.get (tailWatchers w) (fileName document)) as [i|] eqn:Hgi.
  - destruct (closeRaises w i) eqn:Hc.
    + rewrite (tailFile_stop_raises w document i) by done. by split.
    + rewrite (tailFile_stop w document i) by done.
      destruct (Hreg _ _ Hgi) as (fwi & Hfwi & Hpi).
      assert (i <> watcher) as Hne.
      { intros ->. rewrite Hw in Hfwi. injection Hfwi as <-. by cbn in Hpi. }
      split; cbn -[alter JsMap.delete].
      * by rewrite get_delete_ne.
      * by rewrite list_lookup_alter_ne.
  - apply has_false_get in Hgi as Hh.
    destruct (fileSystem w (fileName document)) as [f|] eqn:Hf.
    + rewrite (tailFile_start w document f) by done.
      split; cbn -[JsMap.set].
      * by rewrite get_set_ne.
      * rewrite lookup_app_l; [done|]. by eapply lookup_lt_Some.
    + rewrite (tailFile_start_missing w document) by done. by split.
Qed.

Lemma dbTailedWorld_reachable : reachable dbTailedWorld.
Proof.
  exists (with_activeTextEditor (Some dbLogDocument) freshWorld).
  split; [split; reflexivity|].
  eapply rtc_l; [apply step_tailFile|].
  apply rtc_once. by apply step_other.
Qed.

(** An instance: [db.log] is tailed, the command is run on [app.log]. *)
Lemma X13_toggle_leaves_other_sessions_witness :
  spec_activeSession (snd (tailFile dbTailedWorld)) dbLog 0 2.
Proof.
  apply (X13_toggle_leaves_other_sessions dbTailedWorld dbLog 0 2).
  - apply dbTailedWorld_reachable.
  - split; reflexivity.
  - intros document [= <-]. vm_compute. discriminate.
Defined.

(** ** Starting on a missing file *)

(** X14: the tail command on a log document whose file does not exist
    (a document never saved, say) ends with ENOENT from [statSync]
    before anything is set up: no watcher is created ([fs.watch] is not
    called), nothing is registered, and the output channel and the
    messages are as before. *)
Theorem X14_start_on_a_missing_file_registers_nothing w document :
  activeTextEditor w = Some document ->
  isLogFile document = true ->
  spec_inactive w (fileName document) ->
  fileSystem w (fileName document) = None ->
  exists w',
    tailFile w = (inl ENOENT, w')
    /\ tailWatchers w' = tailWatchers w
    /\ fsWatchers w' = fsWatchers w
    /\ outputChannel w' = outputChannel w
    /\ messages w' = messages w
    /\ fsCalls w' = fsCalls w ++ [StatSync (fileName document)]
    /\ spec_inactive w' (fileName document).
Proof.
  intros He Hl Hi Hf. eexists.
  split; [exact (tailFile_start_missing w document He Hl Hi Hf)|].
  by split_and!.
Qed.

(** An instance: an untitled document of language [log]. *)
Lemma X14_start_on_a_missing_file_registers_nothing_witness :
  exists w',
    tailFile (with_activeTextEditor (Some untitledDocument) freshWorld)
    = (inl ENOENT, w')
    /\ tailWatchers w' = [].
Proof.
  destruct (X14_start_on_a_missing_file_registers_nothing
              (with_activeTextEditor (Some untitledDocument) freshWorld)
              untitledDocument)
    as (w' & Hrun & Ht & _);
    [reflexivity | reflexivity | reflexivity | reflexivity |].
  exists w'. split; [exact Hrun|exact Ht].
Defined.

(** ** After teardown *)

Lemma length_closeAll ids (ws : list FSWatcher) :
  length (closeAll ids ws) = length ws.
Proof.
  revert ws. induction ids as [|i ids IH]; intros ws; [done|].
  change (closeAll (i :: ids) ws)
    with (closeAll ids (alter mark_closed i ws)).
  by rewrite IH, length_alter.
Qed.

(** X15: teardown leaks no watcher.  From any reachable state, when no
    [close] raises, [deactivate] ends with an empty registry and with
    every watcher that was ever created closed, also those of sessions
    stopped earlier. *)
Theorem X15_teardown_leaves_no_open_watcher w :
  reachable w ->
  (forall k i, (k, i) ∈ tailWatchers w -> closeRaises w i = false) ->
  exists w',
    deactivate w = (inr tt, w')
    /\ tailWatchers w' = []
    /\ (forall i fw, fsWatchers w' !! i = Some fw -> closed fw = true)
    /\ (forall path, openWatchersOf w' path = [])
    /\ length (fsWatchers w') = length (fsWatchers w).
Proof.
  intros Hreach Hno. pose proof (reachable_ok w Hreach) as Hok.
  pose proof (forEachClose_completes (tailWatchers w) w Hno) as Hrun.
  eexists. split.
  { unfold deactivate, bind, gets, clearTailWatchers, modify, ret.
    cbn. by rewrite Hrun. }
  cbn -[openWatchersOf closeAll]. pose proof (ok_clear _ _ Hok) as [_ Hopen].
  assert (forall i fw,
            closeAll (map snd (tailWatchers w)) (fsWatchers w) !! i = Some fw ->
            closed fw = true) as Hclosed.
  { intros i fw Hi. destruct (closed fw) eqn:Hc; [done|].
    by specialize (Hopen i fw Hi Hc). }
  split; [done|]. split; [exact Hclosed|]. split.
  - intros path.
    match goal with |- ?ows = [] => destruct ows as [|i rest] eqn:E end;
      [done|].
    assert (i ∈ i :: rest) as Hin by left. rewrite <- E in Hin.
    apply elem_of_openWatchersOf in Hin as (fw & Hi & Hc & _).
    cbn -[closeAll] in Hi. rewrite (Hclosed i fw Hi) in Hc. done.
  - apply length_closeAll.
Qed.

(** An instance: teardown while [db.log] is tailed. *)
Lemma X15_teardown_leaves_no_open_watcher_witness :
  exists w',
    deactivate dbTailedWorld = (inr tt, w')
    /\ openWatchersOf w' dbLog = [].
Proof.
  destruct (X15_teardown_leaves_no_open_watcher dbTailedWorld)
    as (w' & Hrun & _ & _ & Hopen & _).
  - apply dbTailedWorld_reachable.
  - done.
  - exists w'. split; [exact Hrun|apply Hopen].
Defined.

(** X16: teardown on an empty registry does nothing: no [close] call,
    no change of state.  So after a teardown that completed, a second
    one, by [deactivate] or by the [dispose] callback, is a no-op. *)
Theorem X16_teardown_is_idempotent w w' :
  (deactivate w = (inr tt, w') \/ dispose w = (inr tt, w')) ->
  deactivate w' = (inr tt, w') /\ dispose w' = (inr tt, w').
Proof.
  intros Hrun.
  assert (tailWatchers w' = []) as Hempty.
  { destruct Hrun as [Hrun|Hrun]; revert Hrun;
      unfold deactivate, dispose, bind, gets, clearTailWatchers, modify, ret;
      cbn; destruct (forEachClose (tailWatchers w) w) as [[e|[]] w1];
      intros [= <-]; done. }
  unfold deactivate, dispose, bind, gets, clearTailWatchers, modify, ret.
  cbn. rewrite Hempty. cbn. destruct w'. cbn in *. by subst.
Qed.

(** An instance: two teardowns while [db.log] is tailed. *)
Lemma X16_teardown_is_idempotent_witness :
  dispose (snd (deactivate dbTailedWorld))
  = (inr tt, snd (deactivate dbTailedWorld)).
Proof.
  apply (X16_teardown_is_idempotent dbTailedWorld).
  left. reflexivity.
Defined.

(** ** Lines without letters *)

Section NoLetters.

Implicit Types (r : node) (s : jsstring).

Lemma charEq_letter x c :
  charEq true x c = true -> isLetter c = true -> isLetter x = true.
Proof.
  intros H%charEq_cases. unfold isLetter.
  rewrite !orb_true_iff, !andb_true_iff, !N.leb_le. lia.
Qed.

Lemma no_letter_no_match x cs :
  isLetter x = false -> forallb isLetter cs = true ->
  existsb (charEq true x) cs = false.
Proof.
  intros Hx. induction cs as [|c cs IH]; [done|]. cbn.
  intros [Hc Hcs]%andb_true_iff. rewrite IH by done.
  destruct (charEq true x c) eqn:E; [|done].
  by rewrite (charEq_letter x c E Hc) in Hx.
Qed.

(** The matcher hands its continuation a suffix of its input; and a
    pattern that needs a letter fails on input that has none. *)
Lemma matchNode_noLetters r :
  forall p s e k,
    noLetters s ->
    needsLetter r = true
    \/ (forall p' s' e', noLetters s' -> k p' s' e' = None) ->
    matchNode true r p s e k = None.
Proof.
  induction r as [|c|cs| |a IHa b IHb|a IHa b IHb|a IHa|a IHa];
    intros p s e k Hs Hk; cbn [matchNode needsLetter] in *.
  - destruct Hk as [?|Hk]; [done|]. by apply Hk.
  - destruct Hs as [|x s Hx Hs]; [done|].
    destruct (charEq true x c) eqn:E; [|done].
    destruct Hk as [Hc|Hk]; [|by apply Hk].
    by rewrite (charEq_letter x c E Hc) in Hx.
  - destruct Hs as [|x s Hx Hs]; [done|].
    destruct (existsb (charEq true x) cs) eqn:E; [|done].
    destruct Hk as [Hc|Hk]; [|by apply Hk].
    by rewrite (no_letter_no_match x cs Hx Hc) in E.
  - destruct (isWordBoundary p s); [|done].
    destruct Hk as [?|Hk]; [done|]. by apply Hk.
  - destruct Hk as [[Ha|Hb]%orb_true_iff|Hk].
    + apply IHa; [done|by left].
    + apply IHa; [done|right]. intros p' s' e' Hs'. apply IHb; [done|by left].
    + apply IHa; [done|right]. intros p' s' e' Hs'. apply IHb; [done|by right].
  - assert (needsLetter a = true
            \/ (forall p' s' e', noLetters s' -> k p' s' e' = None)) as Ha.
    { destruct Hk as [[? _]%andb_true_iff|?]; [by left|by right]. }
    assert (needsLetter b = true
            \/ (forall p' s' e', noLetters s' -> k p' s' e' = None)) as Hb.
    { destruct Hk as [[_ ?]%andb_true_iff|?]; [by left|by right]. }
    by rewrite IHa, IHb.
  - destruct Hk as [?|Hk]; [done|].
    rewrite IHa; [by apply Hk | done | by right].
  - by apply IHa.
Qed.

Lemma search_noLetters r s :
  needsLetter r = true -> noLetters s ->
  forall p i, search true r p s i = None.
Proof.
  intros Hr Hs. induction Hs as [|x s Hx Hs IH]; intros p i; cbn [search];
    unfold matchAt.
  - rewrite matchNode_noLetters; [done | constructor | by left].
  - rewrite matchNode_noLetters; [apply IH | by constructor | by left].
Qed.

Lemma levelMatches_noLetters level line :
  Forall (fun p => ignoreCase p = true /\ needsLetter (source p) = true)
    (patterns level) ->
  noLetters line -> levelMatches level line = false.
Proof.
  intros Hp Hl. unfold levelMatches.
  induction Hp as [|p ps [Hi Hn] _ IH]; [done|]. cbn. rewrite IH, Hi.
  unfold matches. by rewrite search_noLetters.
Qed.

Lemma table_needs_letters :
  Forall (fun level =>
            Forall (fun p => ignoreCase p = true
                             /\ needsLetter (source p) = true)
              (patterns level))
    initializeLogLevels.
Proof. repeat constructor. Qed.

Lemma countedLevel_noLetters line :
  noLetters line -> countedLevel line = None.
Proof.
  intros Hl. unfold countedLevel. rewrite !test_not_global by done.
  unfold matches. by rewrite !search_noLetters.
Qed.

End NoLetters.

(** X17: lines without ASCII letters (blank lines, separators, bare
    numbers) belong to no level.  A document of such lines, the empty
    document included, gets an empty decoration batch for every level
    and the counts 0, 0, 0. *)
Theorem X17_lines_without_letters_match_nothing d :
  Forall noLetters (lines d) ->
  fst (applyHighlights initializeLogLevels d)
  = [("ERROR"%string, []); ("WARN"%string, []);
     ("INFO"%string, []); ("DEBUG"%string, [])]
  /\ updateStatusBar d = zeroCounts
  /\ Forall (fun line => spec_matchSet line = []) (lines d).
Proof.
  intros H.
  assert (forall level, level ∈ initializeLogLevels ->
            spec_lineRanges (levelMatches level) 0 (lines d) = []) as Hnone.
  { intros level Hin.
    pose proof (proj1 (Forall_forall _ _) table_needs_letters level Hin)
      as Hp.
    generalize 0. induction H as [|l ls Hl _ IH]; intros n; [done|].
    cbn. by rewrite (levelMatches_noLetters level l Hp Hl), IH. }
  split; [|split].
  - rewrite applyHighlights_batches. cbn [map initializeLogLevels].
    rewrite !Hnone by set_solver. done.
  - clear Hnone. unfold updateStatusBar. generalize zeroCounts.
    induction H as [|l ls Hl _ IH]; intros c; [done|]. cbn [fold_left].
    by rewrite countLine_countedLevel, (countedLevel_noLetters l Hl), IH.
  - eapply Forall_impl; [exact H|]. intros line Hl. cbn beta.
    rewrite spec_matchSet_unfold.
    pose proof table_needs_letters as Ht. unfold initializeLogLevels in Ht.
    apply Forall_cons in Ht as [He Ht]. apply Forall_cons in Ht as [Hw Ht].
    apply Forall_cons in Ht as [Hi Ht]. apply Forall_cons in Ht as [Hd _].
    by rewrite (levelMatches_noLetters errorLevel line He Hl),
      (levelMatches_noLetters warnLevel line Hw Hl),
      (levelMatches_noLetters infoLevel line Hi Hl),
      (levelMatches_noLetters debugLevel line Hd Hl).
Qed.

(** An instance: a separator line and a blank line. *)
Lemma X17_lines_without_letters_match_nothing_witness :
  updateStatusBar (logDocument ("-----" ++ LF ++ "2024-01-01 12:00" ++ LF))
  = zeroCounts.
Proof.
  apply (X17_lines_without_letters_match_nothing
           (logDocument ("-----" ++ LF ++ "2024-01-01 12:00" ++ LF))).
  vm_compute. repeat constructor.
Defined.

(** ** Further instances *)

(** An instance: the first line of the end-to-end document is counted
    as an error and is in the batch of ERROR. *)
Lemma X7_counted_lines_are_highlighted_witness :
  exists errors warnings infos debugs,
    fst (applyHighlights initializeLogLevels endToEndDocument)
    = [("ERROR"%string, errors); ("WARN"%string, warnings);
       ("INFO"%string, infos); ("DEBUG"%string, debugs)]
    /\ 0 ∈ errors.
Proof.
  destruct (X7_counted_lines_are_highlighted endToEndDocument)
    as (errors & warnings & infos & debugs & Hcalls & _ & _ & _ & Hlines).
  exists errors, warnings, infos, debugs. split; [exact Hcalls|].
  apply (Hlines 0 (str "2024 ERROR db down")); vm_compute; reflexivity.
Defined.

(** An instance: a name ending in [.LOG], of another language. *)
Lemma X9_log_files_by_suffix_or_language_witness :
  isLogFile {| fileName := str "/srv/Server.LOG";
               languageId := str "plaintext"; lines := [] |} = true.
Proof.
  apply (proj2 (X9_log_files_by_suffix_or_language _)).
  left. exists (str "/srv/Server"), (str ".LOG").
  split; [reflexivity|]. left. reflexivity.
Defined.

(** An instance: [app.log] grows while [db.log] is tailed too; the
    watcher of [db.log] is as before. *)
Lemma X11_listener_touches_only_its_own_offset_witness :
  fsWatchers
    (snd (listener 0 change
            (tailingWorld (diskWith (Some (fileOf (hello ++ hello))))
               (fun _ => false)))) !! 1
  = Some {| filePath := dbLog; lastSize := 2; closed := false |}.
Proof.
  destruct (X11_listener_touches_only_its_own_offset
              (tailingWorld (diskWith (Some (fileOf (hello ++ hello))))
                 (fun _ => false)) 0 change)
    as (_ & _ & _ & _ & _ & Hother & _).
  rewrite (Hother 1) by lia. reflexivity.
Defined.
